(** * Kando editor sidebar: visibility controller and introduction-video playback

    A shallow embedding of [src/renderer/editor/sidebar/sidebar.ts].  The
    [Sidebar] object, the part of the document it touches and the settings
    store are one explicit [state]; every method and event listener is a
    computation in a small state-and-exception monad.  A thrown [TypeError]
    keeps the mutations made before it, as in JavaScript. *)

From stdpp Require Import gmap strings list fin_maps pretty.

Open Scope string_scope.
Open Scope list_scope.

(** ** The document and the object *)

(** The observable part of an [HTMLVideoElement].  [currentTime] is the
    playback position in media time units; the listeners only ever store
    the start position [0] in it. *)
Record video := Video {
  src : option string;
  loop : bool;
  currentTime : nat;
  paused : bool;
}.

Definition with_src (u : string) (v : video) : video :=
  Video (Some u) (loop v) (currentTime v) (paused v).
Definition with_loop (b : bool) (v : video) : video :=
  Video (src v) b (currentTime v) (paused v).
Definition with_currentTime (t : nat) (v : video) : video :=
  Video (src v) (loop v) t (paused v).
Definition with_paused (b : bool) (v : video) : video :=
  Video (src v) (loop v) (currentTime v) b.

(** A clip is in the playing state when its [paused] attribute is false. *)
Definition playing (v : video) : Prop := paused v = false.

Inductive exn := TypeError.

Inductive result (A : Type) :=
| Ok (a : A)
| Throw (e : exn).
Arguments Ok {A} a.
Arguments Throw {A} e.

(** Every mutating statement the code executes, in execution order. *)
Inductive effect :=
| ClassAdd (id cls : string)
| ClassRemove (id cls : string)
| AssignVisible (v : bool)
| SetKey (key : string) (v : bool)
| AssignVideos (i : nat) (el : option nat)
| SetSrc (h : nat) (url : string)
| SetLoop (h : nat) (b : bool)
| SetCurrentTime (h : nat) (t : nat)
| Play (h : nat)
| Pause (h : nat)
| AssignLastVisibleVideo (k : nat).

(** A trace entry: the statement and the clips as they are right after it. *)
Record entry := Entry {
  eff : effect;
  after : gmap nat video;
}.

(** [videos] holds references, not copies: entry [Some h] points at the
    element [clips !! h] of the document, [None] is [null] or an array
    hole.  The video element [#introduction-slides-video-i] is keyed by
    [i]; the other elements are keyed by their id and carry their class
    list. *)
Record state := State {
  visible : bool;
  videos : list (option nat);
  lastVisibleVideo : nat;
  show_once : bool;
  classes : gmap string (gset string);
  clips : gmap nat video;
  settings : gmap string bool;
  trace : list entry;
}.

Definition set_visible (b : bool) (s : state) : state :=
  State b (videos s) (lastVisibleVideo s) (show_once s)
        (classes s) (clips s) (settings s) (trace s).
Definition set_videos (l : list (option nat)) (s : state) : state :=
  State (visible s) l (lastVisibleVideo s) (show_once s)
        (classes s) (clips s) (settings s) (trace s).
Definition set_lastVisibleVideo (k : nat) (s : state) : state :=
  State (visible s) (videos s) k (show_once s)
        (classes s) (clips s) (settings s) (trace s).
Definition set_show_once (b : bool) (s : state) : state :=
  State (visible s) (videos s) (lastVisibleVideo s) b
        (classes s) (clips s) (settings s) (trace s).
Definition set_classes (c : gmap string (gset string)) (s : state) : state :=
  State (visible s) (videos s) (lastVisibleVideo s) (show_once s)
        c (clips s) (settings s) (trace s).
Definition set_clips (c : gmap nat video) (s : state) : state :=
  State (visible s) (videos s) (lastVisibleVideo s) (show_once s)
        (classes s) c (settings s) (trace s).
Definition set_settings (c : gmap string bool) (s : state) : state :=
  State (visible s) (videos s) (lastVisibleVideo s) (show_once s)
        (classes s) (clips s) c (trace s).
Definition set_trace (t : list entry) (s : state) : state :=
  State (visible s) (videos s) (lastVisibleVideo s) (show_once s)
        (classes s) (clips s) (settings s) t.

Definition emit (e : effect) (s : state) : state :=
  set_trace (trace s ++ [Entry e (clips s)]) s.

Definition effects (s : state) : list effect := eff <$> trace s.
Definition frames (s : state) : list (gmap nat video) := after <$> trace s.

(** ** The monad *)

Definition M (A : Type) : Type := state → result A * state.

Definition ret {A} (a : A) : M A := λ s, (Ok a, s).
Definition bind {A B} (m : M A) (k : A → M B) : M B := λ s,
  match m s with
  | (Ok a, s') => k a s'
  | (Throw e, s') => (Throw e, s')
  end.

#[global] Instance M_ret : MRet M := @ret.
#[global] Instance M_bind : MBind M := λ A B k m, bind m k.

Definition exec {A} (m : M A) (s : state) : state := (m s).2.
Definition outcome {A} (m : M A) (s : state) : result A := (m s).1.

Fixpoint for_each (l : list nat) (body : nat → M unit) : M unit :=
  match l with
  | [] => mret tt
  | i :: l' => body i;; for_each l' body
  end.

(** ** Primitives of the platform *)

(** [container.querySelector('#id').classList.add(cls)]: a missing element
    makes [querySelector] return [null], and the member access throws. *)
Definition classList_add (id cls : string) : M unit := λ s,
  match classes s !! id with
  | None => (Throw TypeError, s)
  | Some c =>
      (Ok tt, emit (ClassAdd id cls) (set_classes (<[id := {[cls]} ∪ c]> (classes s)) s))
  end.

Definition classList_remove (id cls : string) : M unit := λ s,
  match classes s !! id with
  | None => (Throw TypeError, s)
  | Some c =>
      (Ok tt, emit (ClassRemove id cls) (set_classes (<[id := c ∖ {[cls]}]> (classes s)) s))
  end.

(** [container.querySelector(`#introduction-slides-video-${i}`)]. *)
Definition querySelector_video (i : nat) : M (option nat) := λ s,
  (Ok (match clips s !! i with Some _ => Some i | None => None end), s).

(** [arr[i] = x] on a JavaScript array: in range it replaces, at the end it
    appends, beyond the end it leaves holes. *)
Definition array_set {A} (l : list (option A)) (i : nat) (x : option A)
  : list (option A) :=
  if decide (i < length l) then <[i := x]> l
  else l ++ replicate (i - length l) None ++ [x].

Definition assign_videos (i : nat) (el : option nat) : M unit := λ s,
  (Ok tt, emit (AssignVideos i el) (set_videos (array_set (videos s) i el) s)).

(** [this.videos[i]] used as the receiver of a member access: [undefined]
    (out of range, hole) and [null] throw. *)
Definition videos_at (i : nat) : M nat := λ s,
  match videos s !! i with
  | Some (Some h) => (Ok h, s)
  | _ => (Throw TypeError, s)
  end.

Definition update_clip (f : video → video) (e : effect) (h : nat) : M unit :=
  λ s, (Ok tt, emit e (set_clips (alter f h (clips s)) s)).

Definition set_src (h : nat) (url : string) : M unit :=
  update_clip (with_src url) (SetSrc h url) h.
Definition set_loop (h : nat) (b : bool) : M unit :=
  update_clip (with_loop b) (SetLoop h b) h.
Definition set_currentTime (h : nat) (t : nat) : M unit :=
  update_clip (with_currentTime t) (SetCurrentTime h t) h.
Definition play (h : nat) : M unit :=
  update_clip (with_paused false) (Play h) h.
Definition pause (h : nat) : M unit :=
  update_clip (with_paused true) (Pause h) h.

(** [require(`../../../../assets/videos/introduction-${i + 1}.mp4`)]. *)
Definition asset (i : nat) : string :=
  "../../../../assets/videos/introduction-" +:+ pretty (i + 1) +:+ ".mp4".

(** Modelled from the spec: [window.api.appSettings] lives in the main
    process and is not part of the file.  The Settings Store is a key/value
    store; [setKey] writes the value under the key. *)
Definition setKey (key : string) (v : bool) : M unit := λ s,
  (Ok tt, emit (SetKey key v) (set_settings (<[key := v]> (settings s)) s)).

(** Modelled from the spec: reading the persisted key; the visibility is
    [true] by default when the key is unset. *)
Definition getKey (key : string) (s : state) : bool :=
  default true (settings s !! key).

(** ** The methods of [Sidebar] *)

Definition area : string := "kando-editor-sidebar-area".
Definition hide_button : string := "hide-sidebar-button".
Definition show_button : string := "show-sidebar-button".

Definition assign_visible (v : bool) : M unit := λ s,
  (Ok tt, emit (AssignVisible v) (set_visible v s)).

Definition assign_lastVisibleVideo (k : nat) : M unit := λ s,
  (Ok tt, emit (AssignLastVisibleVideo k) (set_lastVisibleVideo k s)).

Definition this_visible : M bool := λ s, (Ok (visible s), s).
Definition this_lastVisibleVideo : M nat := λ s, (Ok (lastVisibleVideo s), s).

Definition setVisibility (v : bool) : M unit :=
  cur ← this_visible;
  if negb (eqb cur v) then
    ((if v then
        classList_add area "visible";;
        classList_add hide_button "visible";;
        classList_remove show_button "visible"
      else
        classList_remove area "visible";;
        classList_remove hide_button "visible";;
        classList_add show_button "visible");;
     assign_visible v;;
     setKey "sidebarVisible" v)
  else mret tt.

(** One iteration of the loop in the [show.bs.collapse] listener. *)
Definition resolve_video (i : nat) : M unit :=
  el ← querySelector_video i;
  assign_videos i el;;
  h ← videos_at i;
  set_src h (asset i);;
  h ← videos_at i;
  set_loop h true.

(** The [show.bs.collapse] listener body: [for (let i = 0; i < 5; ++i)]. *)
Definition resolve_videos : M unit := for_each (seq 0 5) resolve_video.

(** The [shown.bs.collapse] listener. *)
Definition on_shown : M unit :=
  h ← this_lastVisibleVideo ≫= videos_at;
  set_currentTime h 0;;
  h ← this_lastVisibleVideo ≫= videos_at;
  play h.

(** The [hidden.bs.collapse] listener. *)
Definition on_hidden : M unit :=
  h ← this_lastVisibleVideo ≫= videos_at;
  pause h.

(** The [slide.bs.carousel] listener; [to] is [e.to]. *)
Definition on_slide (to : nat) : M unit :=
  h ← this_lastVisibleVideo ≫= videos_at;
  pause h;;
  h ← videos_at to;
  set_currentTime h 0;;
  h ← videos_at to;
  play h;;
  assign_lastVisibleVideo to.

(** The [show.bs.collapse] listener is registered with [{ once: true }]: it
    is removed when the event is dispatched, before its body runs. *)
Definition on_show : M unit := λ s,
  if show_once s then resolve_videos (set_show_once false s)
  else (Ok tt, s).

(** ** Events *)

(** [FetchResolved v]: the promise of the [getKey] call the constructor
    issued resolves with [v], the value the store held when it was read;
    the callback passes that value on, whatever happened since. *)
Inductive event :=
| ClickShow
| ClickHide
| SettingsChanged (v : bool)
| FetchResolved (v : bool)
| ShowCollapse
| ShownCollapse
| HiddenCollapse
| SlideCarousel (to : nat).

Definition handler (ev : event) : M unit :=
  match ev with
  | ClickShow => setVisibility true
  | ClickHide => setVisibility false
  | SettingsChanged v => setVisibility v
  | FetchResolved v => setVisibility v
  | ShowCollapse => on_show
  | ShownCollapse => on_shown
  | HiddenCollapse => on_hidden
  | SlideCarousel to => on_slide to
  end.

(** An exception thrown by a listener is reported and the event loop goes
    on with the state the listener left. *)
Definition dispatch (ev : event) (s : state) : state := exec (handler ev) s.

Definition run (evs : list event) (s : state) : state :=
  foldl (λ s ev, dispatch ev s) s evs.

(** The constructor: field initialisers, then the [addEventListener] calls,
    which throw when the markup lacks an element they are attached to. *)
Definition listened : list string :=
  [show_button; hide_button; "sidebar-tab-introduction";
   "sidebar-tab-introduction-content"; "dev-tools-button";
   "reload-menu-theme-button"].

Definition new_Sidebar (markup : gmap string (gset string))
    (media : gmap nat video) (store : gmap string bool) : result state :=
  if forallb (λ id, bool_decide (is_Some (markup !! id))) listened
  then Ok (State true [] 0 true markup media store [])
  else Throw TypeError.

(** ** Vocabulary of the properties *)

Definition has_class (s : state) (id cls : string) : bool :=
  match classes s !! id with
  | Some c => bool_decide (cls ∈ c)
  | None => false
  end.

(** The three elements [setVisibility] toggles are in the document. *)
Definition present (s : state) : Prop :=
  is_Some (classes s !! area) ∧ is_Some (classes s !! hide_button) ∧
  is_Some (classes s !! show_button).

(** The view shows the panel as [b]: panel area and hide button carry
    [visible] iff [b], the show button iff not [b]. *)
Definition view_shows (s : state) (b : bool) : Prop :=
  has_class s area "visible" = b ∧ has_class s hide_button "visible" = b ∧
  has_class s show_button "visible" = negb b.

(** The class-list statements of one state change, as the source orders
    them. *)
Definition toggles (v : bool) : list effect :=
  if v then [ClassAdd area "visible"; ClassAdd hide_button "visible";
             ClassRemove show_button "visible"]
  else [ClassRemove area "visible"; ClassRemove hide_button "visible";
        ClassAdd show_button "visible"].

Definition is_write (e : effect) : bool :=
  match e with SetKey _ _ => true | _ => false end.
Definition is_dom_mutation (e : effect) : bool :=
  match e with ClassAdd _ _ | ClassRemove _ _ => true | _ => false end.

(** The persisted key and the in-memory copy agree. *)
Definition agrees (s : state) : Prop :=
  getKey "sidebarVisible" s = visible s.

(** The statements executed between two states of one run. *)
Definition new_effects (s s' : state) : list effect :=
  drop (length (effects s)) (effects s').

(** The part of the state the visibility controller owns. *)
Definition vis_part (s : state) : bool * gmap string (gset string) * gmap string bool :=
  (visible s, classes s, settings s).

(** The part of the state the playback manager owns. *)
Definition play_part (s : state) : list (option nat) * nat * bool * gmap nat video :=
  (videos s, lastVisibleVideo s, show_once s, clips s).

Definition is_playback (ev : event) : bool :=
  match ev with
  | ShowCollapse | ShownCollapse | HiddenCollapse | SlideCarousel _ => true
  | _ => false
  end.

(** A computation keeps a property of the state, whether it returns or
    throws. *)
Definition preserves {A} (P : state → Prop) (m : M A) : Prop :=
  ∀ s, P s → P (m s).2.

(** The state after one statement on the clip behind handle [h]. *)
Definition apply_clip (f : video → video) (e : effect) (h : nat) (s : state)
  : state := emit e (set_clips (alter f h (clips s)) s).

(** At most one clip is playing. *)
Definition exclusive (c : gmap nat video) : Prop :=
  ∀ i j vi vj, c !! i = Some vi → c !! j = Some vj →
    playing vi → playing vj → i = j.

(** No clip other than [h] is playing. *)
Definition only (h : nat) (c : gmap nat video) : Prop :=
  ∀ i v, c !! i = Some v → playing v → i = h.

(** No clip is playing. *)
Definition quiet (c : gmap nat video) : Prop :=
  ∀ i v, c !! i = Some v → paused v = true.

(** The clips right after a statement are fine: at most one plays, and when
    the statement is [play()] on [h], no other clip plays at that moment. *)
Definition frame_ok (e : entry) : Prop :=
  exclusive (after e) ∧ ∀ h, eff e = Play h → only h (after e).

(** Between two listeners, a playing clip is the one [lastVisibleVideo]
    points at. *)
Definition only_current (s : state) : Prop :=
  ∀ i v, clips s !! i = Some v → playing v →
    videos s !! lastVisibleVideo s = Some (Some i).

Definition playback_inv (s : state) : Prop :=
  only_current s ∧ (show_once s = true → videos s = []) ∧
  Forall frame_ok (trace s).

(** The clip handles are resolved: the one-shot listener has run, and
    [videos[i]] refers to the element of slide [i] for the five slides. *)
Definition resolved (s : state) : Prop :=
  show_once s = false ∧ videos s = Some <$> seq 0 5 ∧
  ∀ i, i < 5 → is_Some (clips s !! i).

(** The handles whose [src] a trace sets, in order. *)
Definition resolutions (l : list effect) : list nat :=
  omap (λ e, match e with SetSrc h _ => Some h | _ => None end) l.

(** The slide index of the most recent [slide.bs.carousel] event, or
    [k] when there is none. *)
Definition last_slide (k : nat) (evs : list event) : nat :=
  foldl (λ k ev, match ev with SlideCarousel to => to | _ => k end) k evs.

(** What [lastVisibleVideo] tracks: a slide change counts when the tab has
    been revealed before it and its index is a slide.  The state of the
    count is whether the tab has been revealed and the index so far. *)
Definition count_step (st : bool * nat) (ev : event) : bool * nat :=
  match ev with
  | ShowCollapse => (true, st.2)
  | SlideCarousel to => if st.1 && (to <? 5)%nat then (st.1, to) else st
  | _ => st
  end.

Definition count_from (st : bool * nat) (evs : list event) : bool * nat :=
  foldl count_step st evs.

Definition counted_slide (evs : list event) : nat :=
  (count_from (false, 0) evs).2.

Definition slide_in_range (ev : event) : Prop :=
  match ev with SlideCarousel to => to < 5 | _ => True end.

#[global] Instance event_eq_dec : EqDecision event.
Proof. solve_decision. Defined.

(** While the handles are resolved nothing plays and nothing starts. *)
Definition resolving (s : state) : Prop :=
  show_once s = false ∧ quiet (clips s) ∧ Forall frame_ok (trace s).

(** What [setVisibility] keeps, also when it throws half-way: the playback
    state, and any property [T] of the trace that survives a statement
    which is not about a clip. *)
Definition inert (T : list entry → Prop) (x : state) (s : state) : Prop :=
  play_part s = play_part x ∧ T (trace s).

Definition about_view (e : effect) : Prop :=
  match e with
  | ClassAdd _ _ | ClassRemove _ _ | AssignVisible _ | SetKey _ _ => True
  | _ => False
  end.

(** The statements of one loop iteration that finds its element. *)
Definition resolve_effects (i : nat) : list effect :=
  [AssignVideos i (Some i); SetSrc i (asset i); SetLoop i true].

(** Before the first [show.bs.collapse]: nothing is resolved, the clips are
    as the markup made them. *)
Definition unresolved (media : gmap nat video) (s : state) : Prop :=
  show_once s = true ∧ videos s = [] ∧ clips s = media ∧
  resolutions (effects s) = [].

(** The count [st] describes the sidebar [s]: its index is the current
    index, and it says whether the handles are resolved. *)
Definition counts (media : gmap nat video) (st : bool * nat) (s : state) : Prop :=
  lastVisibleVideo s = st.2 ∧ st.2 < 5 ∧
  if st.1 then resolved s else unresolved media s.

(** After it: each clip was resolved once, is bound to its slide, has its
    asset as source and loops. *)
Definition all_resolved (s : state) : Prop :=
  resolved s ∧ resolutions (effects s) = seq 0 5 ∧
  ∀ i, i < 5 → ∃ v, clips s !! i = Some v ∧
                     src v = Some (asset i) ∧ loop v = true.

(** A class list with [visible] switched on or off. *)
Definition with_visible (on : bool) (c : gset string) : gset string :=
  if on then {["visible"]} ∪ c else c ∖ {["visible"]}.

(** A document for the examples: the panel rendered open, five paused
    clips without a source. *)
Definition example_markup : gmap string (gset string) :=
  list_to_map
    [(area, {["visible"]}); (hide_button, {["visible"; "sidebar-button"]});
     (show_button, {["sidebar-button"]});
     ("sidebar-tab-introduction", {["collapse"]});
     ("sidebar-tab-introduction-content", {["carousel"; "slide"]});
     ("dev-tools-button", ∅); ("reload-menu-theme-button", ∅)].

Definition example_media : gmap nat video :=
  list_to_map ((λ i, (i, Video None false 0 true)) <$> seq 0 5).

Definition example_fresh : state :=
  State true [] 0 true example_markup example_media ∅ [].

(** A fresh panel whose store holds [false] from an earlier session. *)
Definition example_stale : state :=
  State true [] 0 true example_markup example_media
    {["sidebarVisible" := false]} [].

(** Markup that renders the panel closed, and a fresh panel over it. *)
Definition example_closed_markup : gmap string (gset string) :=
  list_to_map
    [(area, ∅); (hide_button, {["sidebar-button"]});
     (show_button, {["visible"; "sidebar-button"]});
     ("sidebar-tab-introduction", {["collapse"]});
     ("sidebar-tab-introduction-content", {["carousel"; "slide"]});
     ("dev-tools-button", ∅); ("reload-menu-theme-button", ∅)].

Definition example_closed : state :=
  State true [] 0 true example_closed_markup example_media ∅ [].

(** The example panel after the first [show.bs.collapse]. *)
Definition example_resolved : state := dispatch ShowCollapse example_fresh.

(** The same with clip 0 playing, seven time units into the clip. *)
Definition example_playing : state :=
  set_clips (<[0 := Video (Some (asset 0)) true 7 false]> (clips example_resolved))
    example_resolved.

(** ** Vocabulary of the further properties *)

(** The values the trace writes to the Settings Store, in order. *)
Definition written (l : list effect) : list bool :=
  omap (λ e, match e with SetKey _ v => Some v | _ => None end) l.

(** A list of booleans that starts with [b] and flips at each step. *)
Fixpoint alternating (b : bool) (l : list bool) : Prop :=
  match l with
  | [] => True
  | x :: l' => x = b ∧ alternating (negb b) l'
  end.

(** The statements of the playback listeners. *)
Definition about_playback (e : effect) : Prop :=
  match e with
  | ClassAdd _ _ | ClassRemove _ _ | AssignVisible _ | SetKey _ _ => False
  | _ => True
  end.

(** From [s0] to [s'] the trace only grew, by statements that satisfy [Q]. *)
Definition emits (Q : effect → Prop) (s0 s' : state) : Prop :=
  ∃ l, effects s' = effects s0 ++ l ∧ Forall Q l.

(** The value of the last click, change notification or fetch resolution,
    [b] without one. *)
Definition last_request (b : bool) (evs : list event) : bool :=
  foldl (λ b ev, match ev with
                 | ClickShow => true
                 | ClickHide => false
                 | SettingsChanged v => v
                 | FetchResolved v => v
                 | _ => b
                 end) b evs.

(** The elements whose class list [setVisibility] touches. *)
Definition toggled_ids : list string := [area; hide_button; show_button].

(** What no listener changes in the document: which elements exist, and
    every class other than [visible] on the three toggled elements. *)
Definition same_document (s s' : state) : Prop :=
  dom (classes s') = dom (classes s) ∧ dom (clips s') = dom (clips s) ∧
  ∀ id cls, id ∉ toggled_ids ∨ cls ≠ "visible" →
    has_class s' id cls = has_class s id cls.

(** The events of one controller, in order. *)
Definition playback_events (evs : list event) : list event :=
  List.filter is_playback evs.
Definition visibility_events (evs : list event) : list event :=
  List.filter (λ ev, negb (is_playback ev)) evs.

(** A computation maps related states to related states, with the same
    result. *)
Definition respects {A} (R : state → state → Prop) (m : M A) : Prop :=
  ∀ s1 s2, R s1 s2 → (m s1).1 = (m s2).1 ∧ R (m s1).2 (m s2).2.

Definition same_vis (s1 s2 : state) : Prop := vis_part s1 = vis_part s2.
Definition same_play (s1 s2 : state) : Prop := play_part s1 = play_part s2.

(** Handle [i] of the array, when there is one, is the element of slide
    [i], with its asset as source and looping. *)
Definition bound_handles (s : state) : Prop :=
  ∀ i h, videos s !! i = Some (Some h) →
    h = i ∧ ∃ v, clips s !! i = Some v ∧ src v = Some (asset i) ∧ loop v = true.

(** What holds between two listeners on every sidebar the constructor
    made, whatever the markup. *)
Definition bound (s : state) : Prop :=
  (length (videos s) ≤ 5)%nat ∧
  (show_once s = true → videos s = []) ∧
  bound_handles s ∧
  (lastVisibleVideo s = 0 ∨
   videos s !! lastVisibleVideo s = Some (Some (lastVisibleVideo s))).

(** Every [play()] in the list comes right after [currentTime = 0] on the
    same element; [prev] is the statement before the list. *)
Fixpoint starts_ok (prev : option effect) (l : list effect) : bool :=
  match l with
  | [] => true
  | e :: l' =>
      match e with
      | Play h =>
          match prev with
          | Some (SetCurrentTime h' t) => Nat.eqb h h' && Nat.eqb t 0
          | _ => false
          end
      | _ => true
      end && starts_ok (Some e) l'
  end.

(** A statement that keeps [src] and [loop] of a clip. *)
Definition keeps_source (f : video → video) : Prop :=
  ∀ v, src (f v) = src v ∧ loop (f v) = loop v.

(** After the one-shot listener: the handles and the sources are those of
    [s0]. *)
Definition settled (s0 s : state) : Prop :=
  show_once s = false ∧ videos s = videos s0 ∧
  ∀ i, src <$> clips s !! i = src <$> clips s0 !! i ∧
       loop <$> clips s !! i = loop <$> clips s0 !! i.

(** ** The model on concrete inputs *)

Example first_show_statements :
  effects (dispatch ShowCollapse example_fresh) =
    [AssignVideos 0 (Some 0);
     SetSrc 0 "../../../../assets/videos/introduction-1.mp4"; SetLoop 0 true;
     AssignVideos 1 (Some 1);
     SetSrc 1 "../../../../assets/videos/introduction-2.mp4"; SetLoop 1 true;
     AssignVideos 2 (Some 2);
     SetSrc 2 "../../../../assets/videos/introduction-3.mp4"; SetLoop 2 true;
     AssignVideos 3 (Some 3);
     SetSrc 3 "../../../../assets/videos/introduction-4.mp4"; SetLoop 3 true;
     AssignVideos 4 (Some 4);
     SetSrc 4 "../../../../assets/videos/introduction-5.mp4"; SetLoop 4 true].
Proof. vm_compute. reflexivity. Qed.

(** A document without the element of slide 2: the loop stores [null] and
    throws on the next statement; the listener is gone all the same. *)
Example show_with_missing_element :
  let s := State true [] 0 true example_markup (delete 2 example_media) ∅ [] in
  outcome (handler ShowCollapse) s = Throw TypeError ∧
  videos (dispatch ShowCollapse s) = [Some 0; Some 1; None] ∧
  show_once (dispatch ShowCollapse s) = false.
Proof. split; [|split]; vm_compute; reflexivity. Qed.

Example array_set_beyond_end :
  array_set [Some 0] 3 (Some 3) = [Some 0; None; None; Some 3].
Proof. reflexivity. Qed.

(** A slide change before the handles are resolved throws before the
    assignment: the index stays. *)
Example slide_before_resolution :
  outcome (handler (SlideCarousel 2)) example_fresh = Throw TypeError ∧
  dispatch (SlideCarousel 2) example_fresh = example_fresh.
Proof. split; vm_compute; reflexivity. Qed.

(** A slide index that is no slide: the current clip is paused, then the
    access to [videos[7]] throws and the index stays. *)
Example slide_out_of_range :
  outcome (handler (SlideCarousel 7)) example_playing = Throw TypeError ∧
  effects (dispatch (SlideCarousel 7) example_playing) =
    effects example_playing ++ [Pause 0] ∧
  lastVisibleVideo (dispatch (SlideCarousel 7) example_playing) = 0.
Proof. split; [|split]; vm_compute; reflexivity. Qed.

(** A click on the hide button while an element is missing: the class of
    the panel area is already removed when the second statement throws, and
    neither the field nor the store is written. *)
Example hide_with_missing_button :
  let s := State true [] 0 true (delete hide_button example_markup)
             example_media ∅ [] in
  outcome (handler ClickHide) s = Throw TypeError ∧
  effects (dispatch ClickHide s) = [ClassRemove area "visible"] ∧
  visible (dispatch ClickHide s) = true ∧
  settings (dispatch ClickHide s) = ∅.
Proof. split; [|split; [|split]]; vm_compute; reflexivity. Qed.

(** A store that holds [false] from an earlier session: until the fetch
    resolves, memory and store disagree. *)
Example stale_memory_before_fetch :
  let s := State true [] 0 true example_markup example_media
             {["sidebarVisible" := false]} [] in
  getKey "sidebarVisible" (dispatch ClickShow s) = false ∧
  getKey "sidebarVisible" (dispatch (FetchResolved false) s) = false ∧
  visible (dispatch (FetchResolved false) s) = false ∧
  has_class (dispatch (FetchResolved false) s) area "visible" = false.
Proof. split; [|split; [|split]]; vm_compute; reflexivity. Qed.

(** A fetch that resolves after a click on the hide button: the callback
    passes on [true], the value read when the panel was built, so the panel
    opens again and [true] is written. *)
Example late_fetch_reopens :
  visible (run [ClickHide; FetchResolved true] example_fresh) = true ∧
  written (effects (run [ClickHide; FetchResolved true] example_fresh)) =
    [false; true].
Proof. split; vm_compute; reflexivity. Qed.

(** ** The visibility controller *)

Lemma bind_unfold {A B} (m : M A) (k : A → M B) (s : state) :
  (m ≫= k) s =
  match m s with
  | (Ok a, s') => k a s'
  | (Throw e, s') => (Throw e, s')
  end.
Proof. reflexivity. Qed.

Lemma ids_distinct :
  area ≠ hide_button ∧ area ≠ show_button ∧ hide_button ≠ show_button.
Proof. repeat split; discriminate. Qed.

Lemma new_Sidebar_inv (markup : gmap string (gset string))
    (media : gmap nat video) (store : gmap string bool) (s : state) :
  new_Sidebar markup media store = Ok s →
  s = State true [] 0 true markup media store [] ∧
  is_Some (markup !! show_button) ∧ is_Some (markup !! hide_button).
Proof.
  unfold new_Sidebar, listened. cbn [forallb].
  destruct (bool_decide (is_Some (markup !! show_button))) eqn:Hs; [|discriminate].
  destruct (bool_decide (is_Some (markup !! hide_button))) eqn:Hh; [|discriminate].
  cbn [andb]. destruct (_ && _); [|discriminate]. intros [= <-].
  apply bool_decide_eq_true in Hs, Hh. done.
Qed.

Lemma setVisibility_same (s : state) (v : bool) :
  visible s = v → setVisibility v s = (Ok tt, s).
Proof.
  intros <-. unfold setVisibility. rewrite bind_unfold. cbn.
  by rewrite eqb_reflx.
Qed.

(** The state a completed change leaves, written out. *)
Lemma setVisibility_change (s : state) (v : bool) (ca ch cs : gset string) :
  visible s ≠ v →
  classes s !! area = Some ca →
  classes s !! hide_button = Some ch →
  classes s !! show_button = Some cs →
  ∃ s', setVisibility v s = (Ok tt, s') ∧
    visible s' = v ∧
    videos s' = videos s ∧ lastVisibleVideo s' = lastVisibleVideo s ∧
    show_once s' = show_once s ∧ clips s' = clips s ∧
    classes s' = <[show_button := with_visible (negb v) cs]>
                   (<[hide_button := with_visible v ch]>
                      (<[area := with_visible v ca]> (classes s))) ∧
    settings s' = <["sidebarVisible" := v]> (settings s) ∧
    effects s' = effects s ++ toggles v ++ [AssignVisible v; SetKey "sidebarVisible" v] ∧
    frames s' = frames s ++ replicate 5 (clips s) ∧
    trace s' = trace s ++ ((λ e, Entry e (clips s)) <$>
                 toggles v ++ [AssignVisible v; SetKey "sidebarVisible" v]).
Proof.
  intros Hne Ha Hh Hs.
  destruct ids_distinct as (Hah & Has & Hhs).
  unfold setVisibility. rewrite bind_unfold. cbn [this_visible].
  replace (negb (eqb (visible s) v)) with true
    by (destruct (visible s), v; done).
  destruct v;
    repeat first
      [ rewrite bind_unfold
      | progress unfold classList_add, classList_remove, assign_visible, setKey
      | progress cbn [classes set_classes set_visible set_settings emit set_trace]
      | rewrite Ha | rewrite Hh | rewrite Hs
      | rewrite lookup_insert_ne by done ];
    (eexists; split; [reflexivity|]);
    unfold effects, frames; cbn; rewrite <- !app_assoc, !fmap_app; cbn;
    repeat split; reflexivity.
Qed.

Lemma with_visible_elem (on : bool) (c : gset string) :
  bool_decide ("visible" ∈ with_visible on c) = on.
Proof.
  destruct on; cbn.
  - apply bool_decide_eq_true, elem_of_union. left. by apply elem_of_singleton.
  - apply bool_decide_eq_false. rewrite elem_of_difference, elem_of_singleton.
    tauto.
Qed.

Lemma with_visible_other (on : bool) (c : gset string) (cls : string) :
  cls ≠ "visible" →
  bool_decide (cls ∈ with_visible on c) = bool_decide (cls ∈ c).
Proof.
  intros Hne. apply bool_decide_ext. destruct on; cbn.
  - rewrite elem_of_union, elem_of_singleton. tauto.
  - rewrite elem_of_difference, elem_of_singleton. tauto.
Qed.

Lemma exec_outcome {A} (m : M A) (s s' : state) (r : result A) :
  m s = (r, s') → outcome m s = r ∧ exec m s = s'.
Proof. unfold outcome, exec. by intros ->. Qed.

(** C4: a call with a value that differs from the in-memory one toggles
    the three elements to match it (panel area and hide button carry
    [visible] iff open, the show button iff not open, other classes are
    kept), stores the value in memory and writes it under [sidebarVisible]. *)
Theorem setVisibility_change_effect (s : state) (v : bool) :
  present s → visible s ≠ v →
  outcome (setVisibility v) s = Ok tt ∧
  view_shows (exec (setVisibility v) s) v ∧
  (∀ id cls, cls ≠ "visible" →
     has_class (exec (setVisibility v) s) id cls = has_class s id cls) ∧
  visible (exec (setVisibility v) s) = v ∧
  settings (exec (setVisibility v) s) !! "sidebarVisible" = Some v ∧
  effects (exec (setVisibility v) s) =
    effects s ++ toggles v ++ [AssignVisible v; SetKey "sidebarVisible" v].
Proof.
  intros ([ca Ha] & [ch Hh] & [cs Hs]) Hne.
  destruct (setVisibility_change s v ca ch cs Hne Ha Hh Hs)
    as (s' & Hrun & Hv & _ & _ & _ & _ & Hc & Hst & He & _).
  destruct (exec_outcome _ _ _ _ Hrun) as [-> ->].
  destruct ids_distinct as (Hah & Has & Hhs).
  split; [done|]. split; [|split; [|split; [done|split; [|done]]]].
  - unfold view_shows, has_class. rewrite Hc.
    rewrite lookup_insert_ne, lookup_insert_ne, lookup_insert_eq by done.
    rewrite lookup_insert_ne, lookup_insert_eq by done.
    rewrite lookup_insert_eq.
    by rewrite !with_visible_elem.
  - intros id cls Hcls. unfold has_class. rewrite Hc.
    destruct (decide (id = show_button)) as [->|?];
      [rewrite lookup_insert_eq, Hs; by apply with_visible_other|].
    rewrite lookup_insert_ne by done.
    destruct (decide (id = hide_button)) as [->|?];
      [rewrite lookup_insert_eq, Hh; by apply with_visible_other|].
    rewrite lookup_insert_ne by done.
    destruct (decide (id = area)) as [->|?];
      [rewrite lookup_insert_eq, Ha; by apply with_visible_other|].
    by rewrite lookup_insert_ne.
  - rewrite Hst. apply lookup_insert_eq.
Qed.

Lemma example_fresh_present : present example_fresh.
Proof.
  split; [|split]; refine (bool_decide_unpack _ _); vm_compute; exact I.
Defined.

(** Scenario B: the panel is open and [setVisibility(false)] is called. *)
Lemma setVisibility_change_effect_witness :
  present example_fresh ∧ visible example_fresh ≠ false ∧
  has_class (exec (setVisibility false) example_fresh) area "visible" = false ∧
  has_class (exec (setVisibility false) example_fresh) hide_button "visible" = false ∧
  has_class (exec (setVisibility false) example_fresh) show_button "visible" = true ∧
  settings (exec (setVisibility false) example_fresh) !! "sidebarVisible" = Some false.
Proof.
  assert (Hne : visible example_fresh ≠ false) by discriminate.
  destruct (setVisibility_change_effect example_fresh false
              example_fresh_present Hne) as (_ & (Ha & Hh & Hs) & _ & _ & Hk & _).
  split; [exact example_fresh_present|].
  split; [exact Hne|].
  split; [exact Ha|]. split; [exact Hh|]. split; [exact Hs|exact Hk].
Defined.

(** ** Frame reasoning *)

Section Preservation.
Context (P : state → Prop).

Lemma preserves_ret {A} (a : A) : preserves P (mret a).
Proof. by intros s. Qed.

Lemma preserves_bind {A B} (m : M A) (k : A → M B) :
  preserves P m → (∀ a, preserves P (k a)) → preserves P (m ≫= k).
Proof.
  intros Hm Hk s Hs. rewrite bind_unfold.
  specialize (Hm s Hs). destruct (m s) as [[a|e] s1]; cbn in *; [|done].
  by apply Hk.
Qed.

Lemma preserves_for_each (l : list nat) (body : nat → M unit) :
  (∀ i, preserves P (body i)) → preserves P (for_each l body).
Proof.
  intros Hb. induction l as [|i l IH]; cbn [for_each].
  - apply preserves_ret.
  - apply preserves_bind; [apply Hb | by intros _].
Qed.

Lemma preserves_this_visible : preserves P this_visible.
Proof. by intros s. Qed.

Lemma preserves_this_lastVisibleVideo : preserves P this_lastVisibleVideo.
Proof. by intros s. Qed.

Lemma preserves_querySelector_video (i : nat) :
  preserves P (querySelector_video i).
Proof. by intros s. Qed.

Lemma preserves_videos_at (i : nat) : preserves P (videos_at i).
Proof. intros s Hs. unfold videos_at. by destruct (videos s !! i) as [[h|]|]. Qed.
End Preservation.

Lemma preserves_vis_update_clip (x : bool * gmap string (gset string) * gmap string bool)
    (f : video → video) (e : effect) (h : nat) :
  preserves (λ s, vis_part s = x) (update_clip f e h).
Proof. by intros s. Qed.

Lemma preserves_vis_assign_videos x (i : nat) (el : option nat) :
  preserves (λ s, vis_part s = x) (assign_videos i el).
Proof. by intros s. Qed.

Lemma preserves_vis_assign_last x (k : nat) :
  preserves (λ s, vis_part s = x) (assign_lastVisibleVideo k).
Proof. by intros s. Qed.

Ltac preserve_step :=
  first
    [ apply preserves_bind; [|intros ?]
    | apply preserves_for_each; intros ?
    | apply preserves_ret
    | apply preserves_this_visible
    | apply preserves_this_lastVisibleVideo
    | apply preserves_querySelector_video
    | apply preserves_videos_at
    | apply preserves_vis_update_clip
    | apply preserves_vis_assign_videos
    | apply preserves_vis_assign_last ].

(** The playback listeners leave the visibility state alone. *)
Lemma playback_keeps_vis (ev : event) (s : state) :
  is_playback ev = true → vis_part (dispatch ev s) = vis_part s.
Proof.
  intros Hev. unfold dispatch, exec.
  cut (preserves (λ s', vis_part s' = vis_part s) (handler ev));
    [intros H; by apply H|].
  destruct ev; try discriminate; cbn [handler].
  - intros s1 Hs1. unfold on_show. destruct (show_once s1); [|done].
    assert (Hp : preserves (λ s', vis_part s' = vis_part s) resolve_videos).
    { unfold resolve_videos, resolve_video, set_src, set_loop.
      repeat preserve_step. }
    by apply Hp.
  - unfold on_shown, set_currentTime, play. repeat preserve_step.
  - unfold on_hidden, pause. repeat preserve_step.
  - unfold on_slide, set_currentTime, play, pause. repeat preserve_step.
Qed.

(** [setVisibility] leaves the playback state alone, and keeps the three
    elements in the document. *)
Lemma setVisibility_frame (s : state) (v : bool) :
  present s →
  outcome (setVisibility v) s = Ok tt ∧
  play_part (exec (setVisibility v) s) = play_part s ∧
  present (exec (setVisibility v) s).
Proof.
  intros Hp. destruct (decide (visible s = v)) as [Heq|Hne].
  - rewrite (proj1 (exec_outcome _ _ _ _ (setVisibility_same s v Heq))).
    by rewrite (proj2 (exec_outcome _ _ _ _ (setVisibility_same s v Heq))).
  - destruct Hp as ([ca Ha] & [ch Hh] & [cs Hs]).
    destruct (setVisibility_change s v ca ch cs Hne Ha Hh Hs)
      as (s' & Hrun & _ & Hvs & Hl & Ho & Hcl & Hc & _).
    destruct (exec_outcome _ _ _ _ Hrun) as [-> ->].
    destruct ids_distinct as (Hah & Has & Hhs).
    split; [done|]. split.
    + unfold play_part. by rewrite Hvs, Hl, Ho, Hcl.
    + unfold present. rewrite Hc.
      rewrite lookup_insert_ne, lookup_insert_ne, lookup_insert_eq by done.
      rewrite lookup_insert_ne, lookup_insert_eq by done.
      rewrite lookup_insert_eq. eauto.
Qed.

Lemma setVisibility_agrees (s : state) (v : bool) :
  present s → visible s ≠ v ∨ agrees s →
  getKey "sidebarVisible" (exec (setVisibility v) s) = v ∧
  agrees (exec (setVisibility v) s).
Proof.
  intros Hp Hor. destruct (decide (visible s = v)) as [Heq|Hne].
  - destruct Hor as [?|Hag]; [done|].
    rewrite (proj2 (exec_outcome _ _ _ _ (setVisibility_same s v Heq))).
    split; [|done]. by rewrite Hag.
  - destruct Hp as ([ca Ha] & [ch Hh] & [cs Hs]).
    destruct (setVisibility_change s v ca ch cs Hne Ha Hh Hs)
      as (s' & Hrun & Hv & _ & _ & _ & _ & _ & Hst & _).
    destruct (exec_outcome _ _ _ _ Hrun) as [_ ->].
    unfold agrees, getKey. rewrite Hst, lookup_insert_eq. by rewrite Hv.
Qed.

Lemma dispatch_present (ev : event) (s : state) :
  present s → present (dispatch ev s).
Proof.
  intros Hp. destruct (is_playback ev) eqn:Hev.
  - pose proof (playback_keeps_vis ev s Hev) as Heq.
    unfold vis_part in Heq. unfold present.
    by replace (classes (dispatch ev s)) with (classes s) by congruence.
  - destruct ev; try discriminate; unfold dispatch; cbn [handler];
      by apply setVisibility_frame.
Qed.

Lemma dispatch_agrees (ev : event) (s : state) :
  present s → agrees s → agrees (dispatch ev s).
Proof.
  intros Hp Hag. destruct (is_playback ev) eqn:Hev.
  - pose proof (playback_keeps_vis ev s Hev) as Heq.
    unfold vis_part in Heq. unfold agrees, getKey in *.
    replace (settings (dispatch ev s)) with (settings s) by congruence.
    replace (visible (dispatch ev s)) with (visible s) by congruence. done.
  - destruct ev; try discriminate; unfold dispatch; cbn [handler];
      apply setVisibility_agrees; auto.
Qed.

Lemma run_present_agrees (evs : list event) (s : state) :
  present s → agrees s → present (run evs s) ∧ agrees (run evs s).
Proof.
  revert s. induction evs as [|ev evs IH]; intros s Hp Hag; [done|].
  cbn. apply IH; [by apply dispatch_present | by apply dispatch_agrees].
Qed.

(** Until a state change completes, memory and store may disagree; then
    the store still holds the value [v0] that the pending fetch will pass
    on, and memory holds the other one. *)
Lemma pending_step (v0 : bool) (ev : event) (s : state) :
  present s →
  agrees s ∨ (visible s ≠ v0 ∧ getKey "sidebarVisible" s = v0) →
  agrees (dispatch ev s) ∨
  (visible (dispatch ev s) ≠ v0 ∧ getKey "sidebarVisible" (dispatch ev s) = v0).
Proof.
  intros Hp [Hag|(Hne & Hk)]; [left; by apply dispatch_agrees|].
  destruct (is_playback ev) eqn:Hev.
  - right. pose proof (playback_keeps_vis ev s Hev) as Heq.
    unfold vis_part in Heq. injection Heq as Hv _ Hs.
    unfold getKey in *. by rewrite Hv, Hs.
  - assert (Hset : ∀ w,
      agrees (exec (setVisibility w) s) ∨
      (visible (exec (setVisibility w) s) ≠ v0 ∧
       getKey "sidebarVisible" (exec (setVisibility w) s) = v0)).
    { intros w. destruct (decide (visible s = w)) as [Heq|Hnw].
      - right. by rewrite (proj2 (exec_outcome _ _ _ _ (setVisibility_same s w Heq))).
      - left. apply setVisibility_agrees; [done|by left]. }
    destruct ev; try discriminate; unfold dispatch; cbn [handler]; apply Hset.
Qed.

Lemma pending_run (v0 : bool) (evs : list event) (s : state) :
  present s →
  agrees s ∨ (visible s ≠ v0 ∧ getKey "sidebarVisible" s = v0) →
  present (run evs s) ∧
  (agrees (run evs s) ∨
   (visible (run evs s) ≠ v0 ∧ getKey "sidebarVisible" (run evs s) = v0)).
Proof.
  revert s. induction evs as [|ev evs IH]; intros s Hp Hor; [done|].
  cbn. apply IH; [by apply dispatch_present|by apply pending_step].
Qed.

(** When the pending fetch resolves, memory and store agree. *)
Lemma pending_fetch (v0 : bool) (s : state) :
  present s →
  agrees s ∨ (visible s ≠ v0 ∧ getKey "sidebarVisible" s = v0) →
  agrees (dispatch (FetchResolved v0) s).
Proof.
  intros Hp [Hag|(Hne & Hk)]; [by apply dispatch_agrees|].
  unfold dispatch. cbn [handler]. apply setVisibility_agrees; [done|by left].
Qed.

(** ** Claims about the visibility controller *)

(** C2: [setVisibility] is idempotent.  A call with the value already in
    memory changes nothing at all: no class-list statement, no settings
    write, no assignment.  So a second call with the same value is always
    such a no-op, and two calls in a row execute what one call executes:
    when the first one is a change, exactly one set of class-list toggles
    and exactly one settings write. *)
Theorem setVisibility_idempotent (s : state) (v : bool) :
  present s →
  (visible s = v → setVisibility v s = (Ok tt, s)) ∧
  setVisibility v (exec (setVisibility v) s) = (Ok tt, exec (setVisibility v) s) ∧
  (setVisibility v;; setVisibility v) s = setVisibility v s ∧
  (visible s ≠ v →
   new_effects s (exec (setVisibility v;; setVisibility v) s) =
     toggles v ++ [AssignVisible v; SetKey "sidebarVisible" v] ∧
   filter is_write (new_effects s (exec (setVisibility v;; setVisibility v) s)) =
     [SetKey "sidebarVisible" v] ∧
   filter is_dom_mutation (new_effects s (exec (setVisibility v;; setVisibility v) s)) =
     toggles v).
Proof.
  intros Hp.
  assert (Hsecond : setVisibility v (exec (setVisibility v) s)
                    = (Ok tt, exec (setVisibility v) s)).
  { apply setVisibility_same. destruct (decide (visible s = v)) as [Heq|Hne].
    - by rewrite (proj2 (exec_outcome _ _ _ _ (setVisibility_same s v Heq))).
    - destruct Hp as ([ca Ha] & [ch Hh] & [cs Hs]).
      destruct (setVisibility_change s v ca ch cs Hne Ha Hh Hs)
        as (s' & Hrun & Hv & _).
      by rewrite (proj2 (exec_outcome _ _ _ _ Hrun)). }
  assert (Htwice : (setVisibility v;; setVisibility v) s = setVisibility v s).
  { rewrite bind_unfold.
    destruct (setVisibility_frame s v Hp) as (Hok & _).
    unfold outcome, exec in *. destruct (setVisibility v s) as [r s1].
    cbn in *. subst r. exact Hsecond. }
  split; [apply setVisibility_same|]. split; [exact Hsecond|].
  split; [exact Htwice|]. intros Hne.
  unfold exec at 1 2 3. rewrite Htwice.
  destruct Hp as ([ca Ha] & [ch Hh] & [cs Hs]).
  destruct (setVisibility_change s v ca ch cs Hne Ha Hh Hs)
    as (s' & Hrun & _ & _ & _ & _ & _ & _ & _ & He & _).
  rewrite Hrun. cbn [snd]. unfold new_effects. rewrite He, drop_app_length.
  by destruct v.
Qed.

(** Hiding the open example panel twice: one set of toggles, one write. *)
Lemma setVisibility_idempotent_witness :
  present example_fresh ∧
  effects (exec (setVisibility false;; setVisibility false) example_fresh) =
    [ClassRemove area "visible"; ClassRemove hide_button "visible";
     ClassAdd show_button "visible"; AssignVisible false;
     SetKey "sidebarVisible" false].
Proof.
  split; [exact example_fresh_present|].
  assert (Hne : visible example_fresh ≠ false) by discriminate.
  destruct (setVisibility_idempotent example_fresh false example_fresh_present)
    as (_ & _ & _ & H).
  destruct (H Hne) as (He & _). exact He.
Defined.

(** ** The playback listeners, written out *)

Lemma videos_at_some (s : state) (i h : nat) :
  videos s !! i = Some (Some h) → videos_at i s = (Ok h, s).
Proof. unfold videos_at. by intros ->. Qed.

Lemma videos_at_none (s : state) (i : nat) :
  (∀ h, videos s !! i ≠ Some (Some h)) → videos_at i s = (Throw TypeError, s).
Proof.
  intros Hn. unfold videos_at. destruct (videos s !! i) as [[h|]|]; try done.
  by destruct (Hn h).
Qed.

Lemma videos_at_cases (s : state) (i : nat) :
  (∃ h, videos s !! i = Some (Some h)) ∨ (∀ h, videos s !! i ≠ Some (Some h)).
Proof. destruct (videos s !! i) as [[h|]|]; eauto. Qed.

Lemma on_hidden_resolved (s : state) (h : nat) :
  videos s !! lastVisibleVideo s = Some (Some h) →
  on_hidden s = (Ok tt, apply_clip (with_paused true) (Pause h) h s).
Proof.
  intros Hv. unfold on_hidden. rewrite !bind_unfold.
  unfold this_lastVisibleVideo. by rewrite (videos_at_some _ _ _ Hv).
Qed.

Lemma on_hidden_unresolved (s : state) :
  (∀ h, videos s !! lastVisibleVideo s ≠ Some (Some h)) →
  on_hidden s = (Throw TypeError, s).
Proof.
  intros Hv. unfold on_hidden. rewrite !bind_unfold.
  unfold this_lastVisibleVideo. by rewrite (videos_at_none _ _ Hv).
Qed.

Lemma on_shown_resolved (s : state) (h : nat) :
  videos s !! lastVisibleVideo s = Some (Some h) →
  on_shown s =
    (Ok tt, apply_clip (with_paused false) (Play h) h
              (apply_clip (with_currentTime 0) (SetCurrentTime h 0) h s)).
Proof.
  intros Hv. unfold on_shown. rewrite !bind_unfold.
  unfold this_lastVisibleVideo. rewrite (videos_at_some _ _ _ Hv).
  unfold set_currentTime, update_clip. cbn beta iota.
  rewrite !bind_unfold.
  by rewrite (videos_at_some _ _ h) by exact Hv.
Qed.

Lemma on_shown_unresolved (s : state) :
  (∀ h, videos s !! lastVisibleVideo s ≠ Some (Some h)) →
  on_shown s = (Throw TypeError, s).
Proof.
  intros Hv. unfold on_shown. rewrite !bind_unfold.
  unfold this_lastVisibleVideo. by rewrite (videos_at_none _ _ Hv).
Qed.

Lemma on_slide_unresolved (s : state) (to : nat) :
  (∀ h, videos s !! lastVisibleVideo s ≠ Some (Some h)) →
  on_slide to s = (Throw TypeError, s).
Proof.
  intros Hv. unfold on_slide. rewrite !bind_unfold.
  unfold this_lastVisibleVideo. by rewrite (videos_at_none _ _ Hv).
Qed.

Lemma on_slide_target_unresolved (s : state) (to hi : nat) :
  videos s !! lastVisibleVideo s = Some (Some hi) →
  (∀ h, videos s !! to ≠ Some (Some h)) →
  on_slide to s = (Throw TypeError, apply_clip (with_paused true) (Pause hi) hi s).
Proof.
  intros Hv Hto. unfold on_slide. rewrite !bind_unfold.
  unfold this_lastVisibleVideo. rewrite (videos_at_some _ _ _ Hv).
  unfold pause, update_clip. cbn beta iota. rewrite !bind_unfold.
  by rewrite (videos_at_none _ to) by exact Hto.
Qed.

Lemma on_slide_resolved (s : state) (to hi hk : nat) :
  videos s !! lastVisibleVideo s = Some (Some hi) →
  videos s !! to = Some (Some hk) →
  on_slide to s =
    (Ok tt,
     emit (AssignLastVisibleVideo to)
       (set_lastVisibleVideo to
          (apply_clip (with_paused false) (Play hk) hk
             (apply_clip (with_currentTime 0) (SetCurrentTime hk 0) hk
                (apply_clip (with_paused true) (Pause hi) hi s))))).
Proof.
  intros Hv Hto. unfold on_slide. rewrite !bind_unfold.
  unfold this_lastVisibleVideo. rewrite (videos_at_some _ _ _ Hv).
  unfold pause, update_clip. cbn beta iota. rewrite !bind_unfold.
  rewrite (videos_at_some _ to hk) by exact Hto.
  unfold set_currentTime, update_clip. cbn beta iota. rewrite !bind_unfold.
  rewrite (videos_at_some _ to hk) by exact Hto.
  reflexivity.
Qed.

(** ** At most one clip plays *)

Lemma quiet_not_playing (c : gmap nat video) (i : nat) (v : video) :
  quiet c → c !! i = Some v → playing v → False.
Proof. unfold playing. intros Hq Hi Hp. rewrite (Hq i v Hi) in Hp. discriminate. Qed.

Lemma quiet_only (h : nat) (c : gmap nat video) : quiet c → only h c.
Proof. intros Hq i v Hi Hp. by destruct (quiet_not_playing c i v). Qed.

Lemma only_exclusive (h : nat) (c : gmap nat video) : only h c → exclusive c.
Proof.
  intros Ho i j vi vj Hi Hj Hpi Hpj.
  by rewrite (Ho i vi Hi Hpi), (Ho j vj Hj Hpj).
Qed.

Lemma only_pause (h : nat) (c : gmap nat video) :
  only h c → quiet (alter (with_paused true) h c).
Proof.
  intros Ho i v. rewrite lookup_alter. case_decide as Hih.
  - subst i. destruct (c !! h) as [w|]; [|done]. by intros [= <-].
  - intros Hi. destruct (paused v) eqn:Hp; [done|].
    by destruct Hih; symmetry; apply (Ho i v).
Qed.

Lemma only_play (h : nat) (c : gmap nat video) :
  only h c → only h (alter (with_paused false) h c).
Proof.
  intros Ho i v. rewrite lookup_alter. case_decide as Hih; [done|].
  apply Ho.
Qed.

(** A statement that leaves [paused] alone leaves the set of playing clips
    alone. *)
Lemma only_alter (f : video → video) (h k : nat) (c : gmap nat video) :
  (∀ v, paused (f v) = paused v) → only k c → only k (alter f h c).
Proof.
  intros Hf Ho i v. rewrite lookup_alter. case_decide as Hih; [|apply Ho].
  subst i. destruct (c !! h) as [w|] eqn:Hw; [|done].
  intros [= <-] Hp. apply (Ho h w Hw). unfold playing in *. by rewrite <- Hf.
Qed.

Lemma quiet_alter (f : video → video) (h : nat) (c : gmap nat video) :
  (∀ v, paused (f v) = paused v) → quiet c → quiet (alter f h c).
Proof.
  intros Hf Hq i v. rewrite lookup_alter. case_decide as Hih; [|apply Hq].
  subst i. destruct (c !! h) as [w|] eqn:Hw; [|done].
  intros [= <-]. rewrite Hf. by apply (Hq h w).
Qed.

Lemma only_current_at (s : state) (h : nat) :
  only_current s → videos s !! lastVisibleVideo s = Some (Some h) →
  only h (clips s).
Proof. intros Hoc Hv i v Hi Hp. specialize (Hoc i v Hi Hp). congruence. Qed.

Lemma only_current_quiet (s : state) :
  only_current s → (∀ h, videos s !! lastVisibleVideo s ≠ Some (Some h)) →
  quiet (clips s).
Proof.
  intros Hoc Hn i v Hi. destruct (paused v) eqn:Hp; [done|].
  by destruct (Hn i); apply (Hoc i v).
Qed.

Lemma only_current_exclusive (s : state) : only_current s → exclusive (clips s).
Proof.
  intros Hoc. destruct (videos_at_cases s (lastVisibleVideo s)) as [[h Hh]|Hn].
  - by apply (only_exclusive h), only_current_at.
  - by apply (only_exclusive 0), quiet_only, only_current_quiet.
Qed.

Lemma frame_ok_other (e : effect) (c : gmap nat video) :
  (∀ h, e ≠ Play h) → exclusive c → frame_ok (Entry e c).
Proof. intros He Hc. split; [done|]. intros h Hh. by destruct (He h). Qed.

Lemma frame_ok_play (h : nat) (c : gmap nat video) :
  only h c → frame_ok (Entry (Play h) c).
Proof.
  intros Ho. split; [by apply (only_exclusive h)|].
  cbn. by intros h' [= <-].
Qed.

Lemma trace_apply_clip f e h s :
  trace (apply_clip f e h s) = trace s ++ [Entry e (alter f h (clips s))].
Proof. reflexivity. Qed.

Lemma clips_apply_clip f e h s :
  clips (apply_clip f e h s) = alter f h (clips s).
Proof. reflexivity. Qed.

Lemma playback_inv_hidden (s : state) :
  playback_inv s → playback_inv (dispatch HiddenCollapse s).
Proof.
  intros (Hoc & Honce & Htr). unfold dispatch, exec. cbn [handler].
  destruct (videos_at_cases s (lastVisibleVideo s)) as [[h Hh]|Hn].
  - rewrite (on_hidden_resolved s h Hh). cbn [snd].
    pose proof (only_pause h _ (only_current_at s h Hoc Hh)) as Hq.
    split; [|split].
    + intros i v Hi Hp. rewrite clips_apply_clip in Hi.
      by destruct (quiet_not_playing _ i v Hq).
    + exact Honce.
    + rewrite trace_apply_clip. apply Forall_app. split; [done|].
      apply Forall_singleton, frame_ok_other; [done|].
      by apply (only_exclusive h), quiet_only.
  - by rewrite (on_hidden_unresolved s Hn).
Qed.

Lemma playback_inv_shown (s : state) :
  playback_inv s → playback_inv (dispatch ShownCollapse s).
Proof.
  intros (Hoc & Honce & Htr). unfold dispatch, exec. cbn [handler].
  destruct (videos_at_cases s (lastVisibleVideo s)) as [[h Hh]|Hn].
  - rewrite (on_shown_resolved s h Hh). cbn [snd].
    pose proof (only_current_at s h Hoc Hh) as Ho.
    assert (Ho1 : only h (alter (with_currentTime 0) h (clips s)))
      by (by apply only_alter).
    pose proof (only_play h _ Ho1) as Ho2.
    split; [|split].
    + intros i v Hi Hp. rewrite !clips_apply_clip in Hi.
      rewrite (Ho2 i v Hi Hp). exact Hh.
    + exact Honce.
    + rewrite !trace_apply_clip, !clips_apply_clip.
      repeat (apply Forall_app; split); [done| |].
      * apply Forall_singleton, frame_ok_other; [done|].
        by apply (only_exclusive h).
      * by apply Forall_singleton, frame_ok_play.
  - by rewrite (on_shown_unresolved s Hn).
Qed.

Lemma playback_inv_slide (s : state) (to : nat) :
  playback_inv s → playback_inv (dispatch (SlideCarousel to) s).
Proof.
  intros (Hoc & Honce & Htr). unfold dispatch, exec. cbn [handler].
  destruct (videos_at_cases s (lastVisibleVideo s)) as [[hi Hhi]|Hn];
    [|by rewrite (on_slide_unresolved s to Hn)].
  pose proof (only_pause hi _ (only_current_at s hi Hoc Hhi)) as Hq.
  assert (Hf1 : frame_ok (Entry (Pause hi) (alter (with_paused true) hi (clips s)))).
  { apply frame_ok_other; [done|]. by apply (only_exclusive hi), quiet_only. }
  destruct (videos_at_cases s to) as [[hk Hhk]|Hn].
  - rewrite (on_slide_resolved s to hi hk Hhi Hhk). cbn [snd].
    assert (Ho1 : only hk (alter (with_currentTime 0) hk
                             (alter (with_paused true) hi (clips s))))
      by (by apply only_alter, quiet_only).
    pose proof (only_play hk _ Ho1) as Ho2.
    split; [|split].
    + intros i v Hi Hp. cbn in Hi. rewrite (Ho2 i v Hi Hp). exact Hhk.
    + exact Honce.
    + cbn [emit set_trace set_lastVisibleVideo trace clips].
      rewrite !trace_apply_clip, !clips_apply_clip.
      repeat (apply Forall_app; split); [done|by apply Forall_singleton| | |].
      * apply Forall_singleton, frame_ok_other; [done|].
        by apply (only_exclusive hk).
      * by apply Forall_singleton, frame_ok_play.
      * apply Forall_singleton, frame_ok_other; [done|].
        by apply (only_exclusive hk).
  - rewrite (on_slide_target_unresolved s to hi Hhi Hn). cbn [snd].
    split; [|split].
    + intros i v Hi Hp. rewrite clips_apply_clip in Hi.
      by destruct (quiet_not_playing _ i v Hq).
    + exact Honce.
    + rewrite trace_apply_clip. apply Forall_app. by split; [|apply Forall_singleton].
Qed.

Lemma resolving_update_clip (f : video → video) (e : effect) (h : nat) :
  (∀ v, paused (f v) = paused v) → (∀ k, e ≠ Play k) →
  preserves resolving (update_clip f e h).
Proof.
  intros Hf He s (Ho & Hq & Htr). unfold update_clip. cbn [snd].
  fold (apply_clip f e h s).
  pose proof (quiet_alter f h _ Hf Hq) as Hq'.
  split; [done|]. split; [done|].
  rewrite trace_apply_clip. apply Forall_app. split; [done|].
  apply Forall_singleton, frame_ok_other; [done|].
  by apply (only_exclusive h), quiet_only.
Qed.

Lemma resolving_assign_videos (i : nat) (el : option nat) :
  preserves resolving (assign_videos i el).
Proof.
  intros s (Ho & Hq & Htr). unfold assign_videos. cbn.
  split; [done|]. split; [done|].
  apply Forall_app. split; [done|].
  apply Forall_singleton, frame_ok_other; [done|].
  by apply (only_exclusive 0), quiet_only.
Qed.

Lemma resolving_resolve_videos : preserves resolving resolve_videos.
Proof.
  unfold resolve_videos. apply preserves_for_each. intros i.
  unfold resolve_video, set_src, set_loop.
  repeat first
    [ apply preserves_bind; [|intros ?]
    | apply preserves_querySelector_video
    | apply preserves_videos_at
    | apply resolving_assign_videos
    | apply resolving_update_clip; [by intros []|done] ].
Qed.

Lemma playback_inv_show (s : state) :
  playback_inv s → playback_inv (dispatch ShowCollapse s).
Proof.
  intros Hinv. pose proof Hinv as (Hoc & Honce & Htr).
  unfold dispatch, exec. cbn [handler].
  unfold on_show. destruct (show_once s) eqn:Hso; [|exact Hinv].
  assert (Hq : quiet (clips s)).
  { apply only_current_quiet; [done|]. intros h. by rewrite Honce. }
  destruct (resolving_resolve_videos (set_show_once false s))
    as (Ho' & Hq' & Htr'); [done|].
  split; [|split; [|done]].
  - intros i v Hi Hp. by destruct (quiet_not_playing _ i v Hq').
  - intros Ht. rewrite Ho' in Ht. discriminate.
Qed.

Section Inert.
Context (T : list entry → Prop) (x : state).
Hypothesis T_view :
  ∀ tr e, about_view e → T tr → T (tr ++ [Entry e (clips x)]).

Lemma inert_emit (e : effect) (s s' : state) :
  about_view e → play_part s' = play_part s → trace s' = trace s →
  inert T x s → inert T x (emit e s').
Proof.
  intros He Hpp Htr (Hp & Hf). split; [by rewrite <- Hp, <- Hpp|].
  cbn. rewrite Htr.
  replace (clips s') with (clips x); [by apply T_view|].
  unfold play_part in *. congruence.
Qed.

Lemma inert_setVisibility (v : bool) : preserves (inert T x) (setVisibility v).
Proof.
  assert (Hadd : ∀ id cls, preserves (inert T x) (classList_add id cls)).
  { intros id cls s Hs. unfold classList_add.
    destruct (classes s !! id); [|done]. by apply (inert_emit _ s). }
  assert (Hrem : ∀ id cls, preserves (inert T x) (classList_remove id cls)).
  { intros id cls s Hs. unfold classList_remove.
    destruct (classes s !! id); [|done]. by apply (inert_emit _ s). }
  assert (Hav : preserves (inert T x) (assign_visible v)).
  { intros s Hs. by apply (inert_emit _ s). }
  assert (Hsk : preserves (inert T x) (setKey "sidebarVisible" v)).
  { intros s Hs. by apply (inert_emit _ s). }
  unfold setVisibility. apply preserves_bind; [apply preserves_this_visible|].
  intros cur. destruct (negb (eqb cur v)); [|apply preserves_ret].
  destruct v; repeat (apply preserves_bind; [|intros ?]); auto.
Qed.
End Inert.

Lemma frames_ok_view (x : state) (tr : list entry) (e : effect) :
  exclusive (clips x) → about_view e →
  Forall frame_ok tr → Forall frame_ok (tr ++ [Entry e (clips x)]).
Proof.
  intros Hx He Htr. apply Forall_app. split; [done|].
  apply Forall_singleton, frame_ok_other; [|done].
  intros k ->. exact He.
Qed.

Lemma playback_inv_setVisibility (s : state) (v : bool) :
  playback_inv s → playback_inv (exec (setVisibility v) s).
Proof.
  intros (Hoc & Honce & Htr).
  destruct (inert_setVisibility (Forall frame_ok) s
              (λ tr e, frames_ok_view s tr e (only_current_exclusive s Hoc)) v s)
    as (Hp & Hf); [done|].
  unfold exec. unfold play_part in Hp.
  injection Hp as Hvid Hlast Hso Hcl.
  split; [|split; [|done]].
  - intros i w. rewrite Hcl, Hvid, Hlast. apply Hoc.
  - rewrite Hso, Hvid. exact Honce.
Qed.

Lemma playback_inv_dispatch (ev : event) (s : state) :
  playback_inv s → playback_inv (dispatch ev s).
Proof.
  destruct ev.
  - apply playback_inv_setVisibility.
  - apply playback_inv_setVisibility.
  - apply playback_inv_setVisibility.
  - apply playback_inv_setVisibility.
  - apply playback_inv_show.
  - apply playback_inv_shown.
  - apply playback_inv_hidden.
  - apply playback_inv_slide.
Qed.

Lemma playback_inv_run (evs : list event) (s : state) :
  playback_inv s → playback_inv (run evs s).
Proof.
  revert s. induction evs as [|ev evs IH]; intros s Hs; [done|].
  cbn. by apply IH, playback_inv_dispatch.
Qed.

Lemma playback_inv_fresh (markup : gmap string (gset string))
    (media : gmap nat video) (store : gmap string bool) (s : state) :
  new_Sidebar markup media store = Ok s → quiet media → playback_inv s.
Proof.
  unfold new_Sidebar. destruct (forallb _ listened); [|discriminate].
  intros [= <-] Hq. split; [|split; [done|by apply Forall_nil]].
  intros i v Hi Hp. by destruct (quiet_not_playing media i v).
Qed.

(** C1: mutual exclusion.  Whatever events reach a sidebar built over
    markup in which no clip plays, every statement of every listener leaves
    at most one clip playing; and at each [play()] no clip other than the
    one being started is playing, because the listener has paused the one
    that was. *)
Theorem playback_mutual_exclusion
    (markup : gmap string (gset string)) (media : gmap nat video)
    (store : gmap string bool) (s : state) (evs : list event) :
  new_Sidebar markup media store = Ok s → quiet media →
  Forall exclusive (frames (run evs s)) ∧
  exclusive (clips (run evs s)) ∧
  (∀ e h, e ∈ trace (run evs s) → eff e = Play h → only h (after e)).
Proof.
  intros Hnew Hq.
  destruct (playback_inv_run evs s (playback_inv_fresh _ _ _ _ Hnew Hq))
    as (Hoc & _ & Htr).
  split; [|split].
  - unfold frames. apply Forall_fmap. eapply Forall_impl; [exact Htr|].
    by intros e [He _].
  - by apply only_current_exclusive.
  - intros e h He. rewrite Forall_forall in Htr. by apply (Htr e He).
Qed.

Lemma quiet_example_media : quiet example_media.
Proof.
  change (map_Forall (λ (_ : nat) v, paused v = true) example_media).
  refine (bool_decide_unpack _ _). vm_compute. exact I.
Defined.

Lemma new_example_fresh :
  new_Sidebar example_markup example_media ∅ = Ok example_fresh.
Proof. vm_compute. reflexivity. Defined.

(** First reveal, a slide change, the tab hidden and shown again. *)
Lemma playback_mutual_exclusion_witness :
  new_Sidebar example_markup example_media ∅ = Ok example_fresh ∧
  quiet example_media ∧
  Forall exclusive
    (frames (run [ShowCollapse; ShownCollapse; SlideCarousel 2;
                  HiddenCollapse; ShownCollapse] example_fresh)).
Proof.
  split; [exact new_example_fresh|]. split; [exact quiet_example_media|].
  exact (proj1 (playback_mutual_exclusion example_markup example_media ∅
                  example_fresh
                  [ShowCollapse; ShownCollapse; SlideCarousel 2;
                   HiddenCollapse; ShownCollapse]
                  new_example_fresh quiet_example_media)).
Defined.

(** ** Resolving the clips *)

Lemma array_set_end {A} (l : list (option A)) (x : option A) :
  array_set l (length l) x = l ++ [x].
Proof.
  unfold array_set. case_decide; [lia|]. by rewrite Nat.sub_diag.
Qed.

(** One iteration at the end of the array, on an element that exists. *)
Lemma resolve_video_ok (i : nat) (s : state) (v : video) :
  length (videos s) = i → clips s !! i = Some v →
  resolve_video i s =
    (Ok tt,
     apply_clip (with_loop true) (SetLoop i true) i
       (apply_clip (with_src (asset i)) (SetSrc i (asset i)) i
          (emit (AssignVideos i (Some i))
             (set_videos (videos s ++ [Some i]) s)))).
Proof.
  intros Hlen Hv. subst i. unfold resolve_video. rewrite bind_unfold.
  unfold querySelector_video. rewrite Hv. cbn beta iota.
  rewrite bind_unfold. unfold assign_videos. cbn beta iota.
  rewrite array_set_end.
  set (i := length (videos s)) in *.
  assert (Hat : (videos s ++ [Some i]) !! i = Some (Some i)).
  { subst i. rewrite lookup_app_r by lia. by rewrite Nat.sub_diag. }
  rewrite bind_unfold.
  rewrite (videos_at_some _ i i) by exact Hat.
  rewrite bind_unfold. unfold set_src, update_clip. cbn beta iota.
  rewrite bind_unfold.
  by rewrite (videos_at_some _ i i) by exact Hat.
Qed.

(** The loop from index [a], on a document that has the elements. *)
Lemma resolve_loop (n a : nat) (s : state) :
  length (videos s) = a →
  (∀ i, a ≤ i < a + n → is_Some (clips s !! i)) →
  ∃ s', for_each (seq a n) resolve_video s = (Ok tt, s') ∧
    videos s' = videos s ++ (Some <$> seq a n) ∧
    (∀ i, clips s' !! i =
            (if bool_decide (a ≤ i < a + n)
             then (λ v, with_loop true (with_src (asset i) v)) <$> clips s !! i
             else clips s !! i)) ∧
    lastVisibleVideo s' = lastVisibleVideo s ∧
    show_once s' = show_once s ∧
    effects s' = effects s ++ flat_map resolve_effects (seq a n).
Proof.
  revert a s. induction n as [|n IH]; intros a s Hlen Hel.
  - exists s. cbn. rewrite !app_nil_r. repeat split; try done.
    intros i. case_bool_decide; [lia|done].
  - destruct (Hel a) as [v Hv]; [lia|].
    cbn [seq for_each]. rewrite bind_unfold.
    rewrite (resolve_video_ok a s v Hlen Hv). cbn beta iota.
    set (s1 := apply_clip _ _ _ _).
    assert (Hc1 : ∀ i, clips s1 !! i =
              if decide (i = a)
              then (λ w, with_loop true (with_src (asset i) w)) <$> clips s !! i
              else clips s !! i).
    { intros i. subst s1. rewrite clips_apply_clip. cbn [emit set_trace clips].
      rewrite clips_apply_clip. cbn [emit set_trace set_videos clips].
      rewrite !lookup_alter.
      repeat case_decide; subst; try done; by destruct (clips s !! _). }
    destruct (IH (S a) s1) as (s' & Hrun & Hvid & Hcl & Hl & Ho & He).
    + subst s1. cbn. rewrite length_app. cbn. lia.
    + intros i Hi. rewrite Hc1. case_decide; [lia|]. apply Hel. lia.
    + exists s'. split; [exact Hrun|]. split; [|split; [|split; [|split]]].
      * rewrite Hvid. subst s1. cbn. by rewrite <- app_assoc.
      * intros i. rewrite Hcl, Hc1.
        repeat case_bool_decide; case_decide; try lia; done.
      * by rewrite Hl.
      * by rewrite Ho.
      * rewrite He. subst s1. unfold effects. cbn.
        rewrite !fmap_app. cbn. by rewrite <- !app_assoc.
Qed.

Lemma resolutions_app (l l' : list effect) :
  resolutions (l ++ l') = resolutions l ++ resolutions l'.
Proof. apply omap_app. Qed.

Lemma resolutions_view (r : list nat) (x : state) (tr : list entry) (e : effect) :
  about_view e →
  resolutions (eff <$> tr) = r →
  resolutions (eff <$> (tr ++ [Entry e (clips x)])) = r.
Proof.
  intros He Hr. rewrite fmap_app, resolutions_app, Hr. cbn.
  destruct e; try done; by rewrite app_nil_r.
Qed.

(** [setVisibility] keeps the playback state and resolves nothing. *)
Lemma setVisibility_keeps_playback (s : state) (v : bool) :
  play_part (exec (setVisibility v) s) = play_part s ∧
  resolutions (effects (exec (setVisibility v) s)) = resolutions (effects s).
Proof.
  apply (inert_setVisibility (λ tr, resolutions (eff <$> tr) = resolutions (effects s))
           s (resolutions_view _ s) v s).
  by split.
Qed.

Lemma visibility_keeps_playback (ev : event) (s : state) :
  is_playback ev = false →
  play_part (dispatch ev s) = play_part s ∧
  resolutions (effects (dispatch ev s)) = resolutions (effects s).
Proof.
  destruct ev; try discriminate; intros _; unfold dispatch; cbn [handler];
    apply setVisibility_keeps_playback.
Qed.

Lemma unresolved_step (media : gmap nat video) (ev : event) (s : state) :
  ev ≠ ShowCollapse → unresolved media s → unresolved media (dispatch ev s).
Proof.
  intros Hev Hu. pose proof Hu as (Ho & Hv & Hc & Hr).
  assert (Hn : ∀ h, videos s !! lastVisibleVideo s ≠ Some (Some h))
    by (intros h; by rewrite Hv).
  destruct (is_playback ev) eqn:Hpb.
  - unfold dispatch, exec. destruct ev; try done; cbn [handler].
    + by rewrite on_shown_unresolved.
    + by rewrite on_hidden_unresolved.
    + by rewrite on_slide_unresolved.
  - destruct (visibility_keeps_playback ev s Hpb) as (Hpp & Hres).
    unfold play_part in Hpp. injection Hpp as Hvid _ Hso Hcl.
    unfold unresolved. by rewrite Hso, Hvid, Hcl, Hres.
Qed.

Lemma unresolved_show (media : gmap nat video) (s : state) :
  (∀ i, i < 5 → is_Some (media !! i)) →
  unresolved media s → all_resolved (dispatch ShowCollapse s).
Proof.
  intros Hm (Ho & Hv & Hc & Hr). unfold dispatch, exec. cbn [handler].
  unfold on_show. rewrite Ho. unfold resolve_videos.
  destruct (resolve_loop 5 0 (set_show_once false s))
    as (s' & Hrun & Hvid & Hcl & _ & Hso & He).
  { cbn. by rewrite Hv. }
  { intros i Hi. cbn. rewrite Hc. apply Hm. lia. }
  rewrite Hrun. cbn [snd].
  assert (Hk : ∀ i, i < 5 → ∃ v, clips s' !! i = Some v ∧
                 src v = Some (asset i) ∧ loop v = true).
  { intros i Hi. rewrite Hcl. case_bool_decide; [|lia]. cbn [set_show_once clips].
    rewrite Hc. destruct (Hm i Hi) as [v ->]. cbn. eauto. }
  split; [|split; [|exact Hk]].
  - split; [exact Hso|]. split.
    + rewrite Hvid. cbn [set_show_once videos]. by rewrite Hv.
    + intros i Hi. destruct (Hk i Hi) as (v & -> & _). eauto.
  - rewrite He, resolutions_app. change (effects (set_show_once false s)) with (effects s).
    rewrite Hr. reflexivity.
Qed.

Lemma all_resolved_update_clip (f : video → video) (e : effect) (h : nat) :
  (∀ v, src (f v) = src v ∧ loop (f v) = loop v) →
  resolutions [e] = [] →
  preserves all_resolved (update_clip f e h).
Proof.
  intros Hf He s ((Ho & Hv & Hp) & Hr & Hk). unfold update_clip. cbn [snd].
  fold (apply_clip f e h s).
  assert (Hk' : ∀ i, i < 5 → ∃ v, clips (apply_clip f e h s) !! i = Some v ∧
                  src v = Some (asset i) ∧ loop v = true).
  { intros i Hi. destruct (Hk i Hi) as (v & Hiv & Hs & Hl).
    rewrite clips_apply_clip, lookup_alter. case_decide; [subst h|eauto].
    rewrite Hiv. cbn. exists (f v). destruct (Hf v) as [-> ->]. eauto. }
  split; [|split; [|exact Hk']].
  - split; [exact Ho|]. split; [exact Hv|].
    intros i Hi. destruct (Hk' i Hi) as (v & -> & _). eauto.
  - unfold effects. rewrite trace_apply_clip, fmap_app, resolutions_app.
    fold (effects s). rewrite Hr. cbn [fmap list_fmap eff].
    rewrite He. by rewrite app_nil_r.
Qed.

Lemma all_resolved_assign_last (k : nat) :
  preserves all_resolved (assign_lastVisibleVideo k).
Proof.
  intros s ((Ho & Hv & Hp) & Hr & Hk). unfold assign_lastVisibleVideo. cbn [snd].
  split; [done|]. split; [|done].
  unfold effects. cbn. rewrite fmap_app, resolutions_app.
  fold (effects s). rewrite Hr. by rewrite app_nil_r.
Qed.

Ltac all_resolved_step :=
  first
    [ apply preserves_bind; [|intros ?]
    | apply preserves_this_lastVisibleVideo
    | apply preserves_videos_at
    | apply all_resolved_assign_last
    | apply all_resolved_update_clip; [by intros []|done] ].

Lemma all_resolved_step_event (ev : event) (s : state) :
  all_resolved s → all_resolved (dispatch ev s).
Proof.
  intros Ha. destruct (is_playback ev) eqn:Hpb.
  - unfold dispatch, exec. destruct ev; try done; cbn [handler].
    + unfold on_show. pose proof Ha as ((Ho & _) & _). rewrite Ho. exact Ha.
    + revert s Ha. change (preserves all_resolved on_shown).
      unfold on_shown, set_currentTime, play. repeat all_resolved_step.
    + revert s Ha. change (preserves all_resolved on_hidden).
      unfold on_hidden, pause. repeat all_resolved_step.
    + revert s Ha. change (preserves all_resolved (on_slide to)).
      unfold on_slide, set_currentTime, play, pause. repeat all_resolved_step.
  - destruct (visibility_keeps_playback ev s Hpb) as (Hpp & Hres).
    unfold play_part in Hpp. injection Hpp as Hvid _ Hso Hcl.
    destruct Ha as ((Ho & Hv & Hp) & Hr & Hk).
    unfold all_resolved, resolved. by rewrite Hso, Hvid, Hcl, Hres.
Qed.

Lemma all_resolved_run (evs : list event) (s : state) :
  all_resolved s → all_resolved (run evs s).
Proof.
  revert s. induction evs as [|ev evs IH]; intros s Hs; [done|].
  cbn. by apply IH, all_resolved_step_event.
Qed.

Lemma resolution_phase (media : gmap nat video) (evs : list event) (s : state) :
  (∀ i, i < 5 → is_Some (media !! i)) →
  unresolved media s →
  if bool_decide (ShowCollapse ∈ evs) then all_resolved (run evs s)
  else unresolved media (run evs s).
Proof.
  intros Hm. revert s. induction evs as [|ev evs IH]; intros s Hs.
  - by rewrite bool_decide_eq_false_2 by apply not_elem_of_nil.
  - cbn [run foldl]. destruct (decide (ev = ShowCollapse)) as [->|Hne].
    + rewrite bool_decide_eq_true_2 by apply list_elem_of_here.
      by apply all_resolved_run, (unresolved_show media).
    + specialize (IH (dispatch ev s) (unresolved_step media ev s Hne Hs)).
      case_bool_decide as Hin.
      * rewrite bool_decide_eq_true_2 by (by apply list_elem_of_further).
        exact IH.
      * rewrite bool_decide_eq_false_2; [exact IH|].
        intros [?|?]%elem_of_cons; [by destruct Hne|done].
Qed.

(** C6: clip resolution is lazy and one-shot.  From a fresh sidebar over
    markup that has the five video elements: as long as no
    [show.bs.collapse] has been dispatched no clip is resolved and the
    clips are as the markup made them; once one has, each of the five
    clips has been resolved exactly once, in order, is bound to its slide,
    has its asset as source and loops, however many [show.bs.collapse]
    events follow; a later one changes nothing. *)
Theorem lazy_one_shot_resolution
    (markup : gmap string (gset string)) (media : gmap nat video)
    (store : gmap string bool) (s : state) (evs : list event) :
  new_Sidebar markup media store = Ok s →
  (∀ i, i < 5 → is_Some (media !! i)) →
  if bool_decide (ShowCollapse ∈ evs) then
    resolutions (effects (run evs s)) = [0; 1; 2; 3; 4] ∧
    videos (run evs s) = [Some 0; Some 1; Some 2; Some 3; Some 4] ∧
    (∀ i, i < 5 → ∃ v, clips (run evs s) !! i = Some v ∧
                        src v = Some (asset i) ∧ loop v = true) ∧
    handler ShowCollapse (run evs s) = (Ok tt, run evs s)
  else
    resolutions (effects (run evs s)) = [] ∧
    videos (run evs s) = [] ∧
    clips (run evs s) = media.
Proof.
  intros Hnew Hm.
  assert (Hu : unresolved media s).
  { unfold new_Sidebar in Hnew. destruct (forallb _ listened); [|discriminate].
    by injection Hnew as <-. }
  pose proof (resolution_phase media evs s Hm Hu) as Hph.
  destruct (bool_decide (ShowCollapse ∈ evs)).
  - destruct Hph as ((Ho & Hv & _) & Hr & Hk).
    repeat split; try done. cbn [handler]. unfold on_show. by rewrite Ho.
  - by destruct Hph as (_ & Hv & Hc & Hr).
Qed.

Lemma example_media_present : ∀ i, i < 5 → is_Some (example_media !! i).
Proof.
  intros i Hi. do 5 (destruct i as [|i]; [vm_compute; eauto|]). lia.
Defined.

(** Two reveals of the tab: the clips are resolved once. *)
Lemma lazy_one_shot_resolution_witness :
  new_Sidebar example_markup example_media ∅ = Ok example_fresh ∧
  (∀ i, i < 5 → is_Some (example_media !! i)) ∧
  resolutions
    (effects (run [ShowCollapse; ShownCollapse; HiddenCollapse;
                   ShowCollapse; ShownCollapse] example_fresh)) = [0; 1; 2; 3; 4].
Proof.
  split; [exact new_example_fresh|]. split; [exact example_media_present|].
  pose proof (lazy_one_shot_resolution example_markup example_media ∅
                example_fresh
                [ShowCollapse; ShownCollapse; HiddenCollapse;
                 ShowCollapse; ShownCollapse]
                new_example_fresh example_media_present) as H.
  change (bool_decide _) with true in H. cbv beta iota in H.
  exact (proj1 H).
Defined.

(** ** Claims about single listeners *)

Lemma new_effects_app (s s' : state) (l : list effect) :
  effects s' = effects s ++ l → new_effects s s' = l.
Proof. intros He. unfold new_effects. by rewrite He, drop_app_length. Qed.

Lemma effects_apply_clip f e h s :
  effects (apply_clip f e h s) = effects s ++ [e].
Proof. unfold effects. by rewrite trace_apply_clip, fmap_app. Qed.

Lemma pause_paused (h : nat) (c : gmap nat video) :
  quiet c → alter (with_paused true) h c = c.
Proof.
  intros Hq. apply map_eq. intros i. rewrite lookup_alter.
  case_decide; [subst i|done].
  destruct (c !! h) as [v|] eqn:Hv; [|done]. cbn. f_equal.
  specialize (Hq h v Hv). destruct v as [a b t p]. cbn in *. by subst p.
Qed.

(** What the [shown] listener does to a resolved current clip. *)
Lemma shown_resolved_effect (s : state) (h : nat) (v : video) :
  videos s !! lastVisibleVideo s = Some (Some h) →
  clips s !! h = Some v →
  outcome (handler ShownCollapse) s = Ok tt ∧
  new_effects s (dispatch ShownCollapse s) = [SetCurrentTime h 0; Play h] ∧
  clips (dispatch ShownCollapse s) =
    <[h := Video (src v) (loop v) 0 false]> (clips s).
Proof.
  intros Hh Hv. unfold outcome, dispatch, exec. cbn [handler].
  rewrite (on_shown_resolved s h Hh). cbn [fst snd].
  split; [done|]. split.
  - apply new_effects_app. by rewrite !effects_apply_clip, <- app_assoc.
  - rewrite !clips_apply_clip. apply map_eq. intros i.
    rewrite !lookup_alter, lookup_insert.
    repeat case_decide; subst; try done. by rewrite Hv.
Qed.

(** C7: the tab show/hide lifecycle on a resolved current clip.  The
    [shown] listener sets the clip at [lastVisibleVideo] to its start and
    plays it; the [hidden] listener pauses it and leaves its position;
    shown after hidden starts it from the start again.  No other clip and
    no other attribute is touched. *)
Theorem tab_show_hide_lifecycle (s : state) (h : nat) (v : video) :
  videos s !! lastVisibleVideo s = Some (Some h) →
  clips s !! h = Some v →
  (outcome (handler ShownCollapse) s = Ok tt ∧
   new_effects s (dispatch ShownCollapse s) = [SetCurrentTime h 0; Play h] ∧
   clips (dispatch ShownCollapse s) =
     <[h := Video (src v) (loop v) 0 false]> (clips s)) ∧
  (outcome (handler HiddenCollapse) s = Ok tt ∧
   new_effects s (dispatch HiddenCollapse s) = [Pause h] ∧
   clips (dispatch HiddenCollapse s) =
     <[h := Video (src v) (loop v) (currentTime v) true]> (clips s)) ∧
  clips (run [HiddenCollapse; ShownCollapse] s) =
    <[h := Video (src v) (loop v) 0 false]> (clips s).
Proof.
  intros Hh Hv.
  assert (Hhidden : clips (dispatch HiddenCollapse s) =
            <[h := Video (src v) (loop v) (currentTime v) true]> (clips s)).
  { unfold dispatch, exec. cbn [handler].
    rewrite (on_hidden_resolved s h Hh). cbn [snd].
    rewrite clips_apply_clip. apply map_eq. intros i.
    rewrite lookup_alter, lookup_insert. case_decide; [subst i|done].
    by rewrite Hv. }
  split; [by apply shown_resolved_effect|]. split.
  - unfold outcome. cbn [handler].
    split; [by rewrite (on_hidden_resolved s h Hh)|]. split; [|exact Hhidden].
    apply new_effects_app. unfold dispatch, exec. cbn [handler].
    rewrite (on_hidden_resolved s h Hh). cbn [snd].
    by rewrite effects_apply_clip.
  - cbn [run foldl].
    destruct (shown_resolved_effect (dispatch HiddenCollapse s) h
                (Video (src v) (loop v) (currentTime v) true))
      as (_ & _ & ->).
    + unfold dispatch, exec. cbn [handler].
      by rewrite (on_hidden_resolved s h Hh).
    + rewrite Hhidden. apply lookup_insert_eq.
    + rewrite Hhidden. by rewrite insert_insert_eq.
Qed.

(** Scenario C, from the pause point seven: hidden keeps the position,
    shown again starts from zero. *)
Lemma tab_show_hide_lifecycle_witness :
  videos example_playing !! lastVisibleVideo example_playing = Some (Some 0) ∧
  clips example_playing !! 0 = Some (Video (Some (asset 0)) true 7 false) ∧
  clips (dispatch HiddenCollapse example_playing) !! 0 =
    Some (Video (Some (asset 0)) true 7 true) ∧
  clips (run [HiddenCollapse; ShownCollapse] example_playing) !! 0 =
    Some (Video (Some (asset 0)) true 0 false).
Proof.
  assert (Hh : videos example_playing !! lastVisibleVideo example_playing
               = Some (Some 0)) by (vm_compute; reflexivity).
  assert (Hv : clips example_playing !! 0
               = Some (Video (Some (asset 0)) true 7 false))
    by (vm_compute; reflexivity).
  destruct (tab_show_hide_lifecycle example_playing 0 _ Hh Hv)
    as (_ & (_ & _ & Hhid) & Hagain).
  split; [exact Hh|]. split; [exact Hv|]. split.
  - rewrite Hhid. apply lookup_insert_eq.
  - rewrite Hagain. apply lookup_insert_eq.
Defined.

Lemma resolved_at (s : state) (i : nat) :
  resolved s → i < 5 → videos s !! i = Some (Some i).
Proof.
  intros (_ & Hv & _) Hi. rewrite Hv.
  do 5 (destruct i as [|i]; [done|]). lia.
Qed.

(** C3: a slide change to [k] while clip [i] is current, both resolved.
    The listener executes, in this order: pause clip [i], set the position
    of clip [k] to its start, play clip [k], assign [k] to
    [lastVisibleVideo].  Afterwards clip [k] plays from the start and, when
    it is another clip, clip [i] is paused where it was. *)
Theorem slide_change_order (s : state) (k : nat) (vi vk : video) :
  resolved s → lastVisibleVideo s < 5 → k < 5 →
  clips s !! lastVisibleVideo s = Some vi → clips s !! k = Some vk →
  outcome (handler (SlideCarousel k)) s = Ok tt ∧
  new_effects s (dispatch (SlideCarousel k) s) =
    [Pause (lastVisibleVideo s); SetCurrentTime k 0; Play k;
     AssignLastVisibleVideo k] ∧
  lastVisibleVideo (dispatch (SlideCarousel k) s) = k ∧
  clips (dispatch (SlideCarousel k) s) !! k =
    Some (Video (src vk) (loop vk) 0 false) ∧
  (lastVisibleVideo s ≠ k →
   clips (dispatch (SlideCarousel k) s) !! lastVisibleVideo s =
     Some (Video (src vi) (loop vi) (currentTime vi) true)).
Proof.
  intros Hr Hi Hk Hvi Hvk.
  pose proof (on_slide_resolved s k _ _ (resolved_at s _ Hr Hi)
                (resolved_at s k Hr Hk)) as Hrun.
  unfold outcome, dispatch, exec. cbn [handler]. rewrite Hrun. cbn [fst snd].
  split; [done|]. split; [|split; [done|split]].
  - apply new_effects_app. unfold effects. cbn [emit set_trace trace].
    rewrite fmap_app. cbn [set_lastVisibleVideo trace].
    fold (effects (apply_clip (with_paused false) (Play k) k
           (apply_clip (with_currentTime 0) (SetCurrentTime k 0) k
              (apply_clip (with_paused true) (Pause (lastVisibleVideo s))
                 (lastVisibleVideo s) s)))).
    rewrite !effects_apply_clip. by rewrite <- !app_assoc.
  - cbn [emit set_trace set_lastVisibleVideo clips].
    rewrite !clips_apply_clip, !lookup_alter.
    repeat case_decide; subst; try done.
    + rewrite Hvk in Hvi. injection Hvi as <-. by rewrite Hvk.
    + by rewrite Hvk.
  - intros Hne. cbn [emit set_trace set_lastVisibleVideo clips].
    rewrite !clips_apply_clip, !lookup_alter.
    repeat case_decide; subst; try done. by rewrite Hvi.
Qed.

(** Scenario D: clip 0 is playing and the carousel slides to 2. *)
Lemma slide_change_order_witness :
  resolved example_playing ∧ lastVisibleVideo example_playing < 5 ∧ 2 < 5 ∧
  new_effects example_playing (dispatch (SlideCarousel 2) example_playing) =
    [Pause 0; SetCurrentTime 2 0; Play 2; AssignLastVisibleVideo 2] ∧
  lastVisibleVideo (dispatch (SlideCarousel 2) example_playing) = 2 ∧
  clips (dispatch (SlideCarousel 2) example_playing) !! 0 =
    Some (Video (Some (asset 0)) true 7 true) ∧
  clips (dispatch (SlideCarousel 2) example_playing) !! 2 =
    Some (Video (Some (asset 2)) true 0 false).
Proof.
  assert (Hr : resolved example_playing).
  { split; [vm_compute; reflexivity|]. split; [vm_compute; reflexivity|].
    intros i Hi. do 5 (destruct i as [|i]; [vm_compute; eauto|]). lia. }
  assert (Hi : lastVisibleVideo example_playing < 5) by (vm_compute; lia).
  assert (Hk : 2 < 5) by lia.
  assert (Hvi : clips example_playing !! lastVisibleVideo example_playing
                = Some (Video (Some (asset 0)) true 7 false))
    by (vm_compute; reflexivity).
  assert (Hvk : clips example_playing !! 2
                = Some (Video (Some (asset 2)) true 0 true))
    by (vm_compute; reflexivity).
  destruct (slide_change_order example_playing 2 _ _ Hr Hi Hk Hvi Hvk)
    as (_ & He & Hl & Hck & Hci).
  split; [exact Hr|]. split; [exact Hi|]. split; [exact Hk|].
  split; [exact He|]. split; [exact Hl|]. split; [|exact Hck].
  apply Hci. vm_compute. lia.
Defined.

(** C9, as the spec has it, fails: on a sidebar whose tab has never been
    shown, [videos] is empty, [this.videos[0]] is [undefined] and the
    [hidden] listener throws. *)
Lemma hidden_before_resolution_throws :
  new_Sidebar example_markup example_media ∅ = Ok example_fresh ∧
  videos example_fresh = [] ∧
  outcome (handler HiddenCollapse) example_fresh = Throw TypeError.
Proof. split; [|split]; vm_compute; reflexivity. Qed.

(** C9, amended: once the handles are resolved, the [hidden] listener on a
    panel none of whose clips has been started completes without error and
    changes nothing but the trace: pausing a paused clip is a no-op.  As
    long as [videos[lastVisibleVideo]] is not resolved the listener throws
    a [TypeError] and changes nothing. *)
Theorem hidden_without_started_clip (s : state) (h : nat) :
  videos s !! lastVisibleVideo s = Some (Some h) → quiet (clips s) →
  handler HiddenCollapse s = (Ok tt, emit (Pause h) s) ∧
  ∀ s0, (∀ h0, videos s0 !! lastVisibleVideo s0 ≠ Some (Some h0)) →
        handler HiddenCollapse s0 = (Throw TypeError, s0).
Proof.
  intros Hh Hq. split.
  - cbn [handler]. rewrite (on_hidden_resolved s h Hh). f_equal.
    unfold apply_clip. rewrite (pause_paused h _ Hq). by destruct s.
  - intros s0 Hn. cbn [handler]. by apply on_hidden_unresolved.
Qed.

Lemma hidden_without_started_clip_witness :
  videos example_resolved !! lastVisibleVideo example_resolved = Some (Some 0) ∧
  quiet (clips example_resolved) ∧
  handler HiddenCollapse example_resolved = (Ok tt, emit (Pause 0) example_resolved).
Proof.
  assert (Hh : videos example_resolved !! lastVisibleVideo example_resolved
               = Some (Some 0)) by (vm_compute; reflexivity).
  assert (Hq : quiet (clips example_resolved)).
  { change (map_Forall (λ (_ : nat) v, paused v = true) (clips example_resolved)).
    refine (bool_decide_unpack _ _). vm_compute. exact I. }
  split; [exact Hh|]. split; [exact Hq|].
  exact (proj1 (hidden_without_started_clip example_resolved 0 Hh Hq)).
Defined.

(** ** The current clip index *)

Section KeepsLast.
Context (x : nat).

Lemma last_update_clip f e h :
  preserves (λ s, lastVisibleVideo s = x) (update_clip f e h).
Proof. by intros s. Qed.

Lemma last_assign_videos i el :
  preserves (λ s, lastVisibleVideo s = x) (assign_videos i el).
Proof. by intros s. Qed.

Lemma last_resolve_videos :
  preserves (λ s, lastVisibleVideo s = x) resolve_videos.
Proof.
  unfold resolve_videos. apply preserves_for_each. intros i.
  unfold resolve_video, set_src, set_loop.
  repeat first
    [ apply preserves_bind; [|intros ?]
    | apply preserves_querySelector_video
    | apply preserves_videos_at
    | apply last_assign_videos
    | apply last_update_clip ].
Qed.

Lemma last_on_shown : preserves (λ s, lastVisibleVideo s = x) on_shown.
Proof.
  unfold on_shown, set_currentTime, play.
  repeat first
    [ apply preserves_bind; [|intros ?]
    | apply preserves_this_lastVisibleVideo
    | apply preserves_videos_at
    | apply last_update_clip ].
Qed.

Lemma last_on_hidden : preserves (λ s, lastVisibleVideo s = x) on_hidden.
Proof.
  unfold on_hidden, pause.
  repeat first
    [ apply preserves_bind; [|intros ?]
    | apply preserves_this_lastVisibleVideo
    | apply preserves_videos_at
    | apply last_update_clip ].
Qed.
End KeepsLast.

(** Only [slide.bs.carousel] assigns [lastVisibleVideo]. *)
Lemma nonslide_keeps_last (ev : event) (s : state) :
  (∀ to, ev ≠ SlideCarousel to) →
  lastVisibleVideo (dispatch ev s) = lastVisibleVideo s.
Proof.
  intros Hev. destruct (is_playback ev) eqn:Hpb.
  - unfold dispatch, exec. destruct ev; try done; cbn [handler].
    + unfold on_show. destruct (show_once s); [|done].
      by apply (last_resolve_videos (lastVisibleVideo s) (set_show_once false s)).
    + by apply last_on_shown.
    + by apply last_on_hidden.
    + by destruct (Hev to).
  - destruct (visibility_keeps_playback ev s Hpb) as (Hpp & _).
    unfold play_part in Hpp. by injection Hpp.
Qed.

Lemma resolved_update_clip f e h : preserves resolved (update_clip f e h).
Proof.
  intros s (Ho & Hv & Hp). unfold update_clip. cbn [snd].
  split; [done|]. split; [done|]. intros i Hi. cbn.
  rewrite lookup_alter. case_decide; [subst h|by apply Hp].
  apply fmap_is_Some. by apply Hp.
Qed.

Lemma resolved_assign_last k : preserves resolved (assign_lastVisibleVideo k).
Proof. by intros s. Qed.

Ltac resolved_step :=
  first
    [ apply preserves_bind; [|intros ?]
    | apply preserves_this_lastVisibleVideo
    | apply preserves_videos_at
    | apply resolved_assign_last
    | apply resolved_update_clip ].

Lemma resolved_dispatch (ev : event) (s : state) :
  resolved s → resolved (dispatch ev s).
Proof.
  intros Hr. destruct (is_playback ev) eqn:Hpb.
  - unfold dispatch, exec. destruct ev; try done; cbn [handler].
    + unfold on_show. pose proof Hr as (Ho & _). by rewrite Ho.
    + revert s Hr. change (preserves resolved on_shown).
      unfold on_shown, set_currentTime, play. repeat resolved_step.
    + revert s Hr. change (preserves resolved on_hidden).
      unfold on_hidden, pause. repeat resolved_step.
    + revert s Hr. change (preserves resolved (on_slide to)).
      unfold on_slide, set_currentTime, play, pause. repeat resolved_step.
  - destruct (visibility_keeps_playback ev s Hpb) as (Hpp & _).
    unfold play_part in Hpp. injection Hpp as Hvid _ Hso Hcl.
    destruct Hr as (Ho & Hv & Hp). unfold resolved. by rewrite Hso, Hvid, Hcl.
Qed.

Lemma slide_sets_last (s : state) (to : nat) :
  resolved s → lastVisibleVideo s < 5 → to < 5 →
  lastVisibleVideo (dispatch (SlideCarousel to) s) = to.
Proof.
  intros Hr Hi Hk. unfold dispatch, exec. cbn [handler].
  by rewrite (on_slide_resolved s to _ _ (resolved_at s _ Hr Hi)
                (resolved_at s to Hr Hk)).
Qed.

Lemma run_last_slide (evs : list event) (s : state) :
  resolved s → lastVisibleVideo s < 5 → Forall slide_in_range evs →
  resolved (run evs s) ∧
  lastVisibleVideo (run evs s) = last_slide (lastVisibleVideo s) evs ∧
  lastVisibleVideo (run evs s) < 5.
Proof.
  revert s. induction evs as [|ev evs IH]; intros s Hr Hi Hevs; [done|].
  apply Forall_cons in Hevs as [Hev Hevs]. cbn [run last_slide foldl].
  assert (Hl : lastVisibleVideo (dispatch ev s) =
               match ev with SlideCarousel to => to | _ => lastVisibleVideo s end).
  { destruct ev; try (by apply nonslide_keeps_last). by apply slide_sets_last. }
  rewrite <- Hl. apply IH; [by apply resolved_dispatch| |done].
  rewrite Hl. by destruct ev.
Qed.

Lemma run_app (evs evs' : list event) (s : state) :
  run (evs ++ evs') s = run evs' (run evs s).
Proof. apply foldl_app. Qed.

(** Hiding and showing a resolved panel again: the statements of the
    [shown] listener. *)
Lemma reshow_effect (s : state) :
  resolved s → lastVisibleVideo s < 5 →
  new_effects (dispatch HiddenCollapse s)
              (dispatch ShownCollapse (dispatch HiddenCollapse s)) =
    [SetCurrentTime (lastVisibleVideo s) 0; Play (lastVisibleVideo s)] ∧
  ∃ v, clips (dispatch ShownCollapse (dispatch HiddenCollapse s))
         !! lastVisibleVideo s = Some v ∧ currentTime v = 0 ∧ playing v.
Proof.
  intros Hr Hi. set (k := lastVisibleVideo s).
  set (s2 := dispatch HiddenCollapse s).
  assert (Hl2 : lastVisibleVideo s2 = k)
    by (subst s2; by rewrite nonslide_keeps_last).
  assert (Hr2 : resolved s2) by (by apply resolved_dispatch).
  assert (Hh : videos s2 !! lastVisibleVideo s2 = Some (Some k))
    by (rewrite Hl2; by apply resolved_at).
  destruct Hr2 as (_ & _ & Hp2). destruct (Hp2 k Hi) as [v Hv].
  destruct (shown_resolved_effect s2 k v Hh Hv) as (_ & He & Hc).
  split; [exact He|].
  exists (Video (src v) (loop v) 0 false). rewrite Hc.
  split; [apply lookup_insert_eq|done].
Qed.

(** A slide change to an index that is no slide, on a resolved panel: the
    listener throws before the assignment. *)
Lemma slide_no_slide_keeps_last (s : state) (to : nat) :
  resolved s → lastVisibleVideo s < 5 → ¬ to < 5 →
  lastVisibleVideo (dispatch (SlideCarousel to) s) = lastVisibleVideo s.
Proof.
  intros Hr Hi Hto. unfold dispatch, exec. cbn [handler].
  rewrite (on_slide_target_unresolved s to _ (resolved_at s _ Hr Hi)); [done|].
  intros h. destruct Hr as (_ & -> & _).
  rewrite lookup_ge_None_2; [done|]. rewrite length_fmap, length_seq. lia.
Qed.

Lemma counts_step (media : gmap nat video) (st : bool * nat) (ev : event)
    (s : state) :
  (∀ i, i < 5 → is_Some (media !! i)) →
  counts media st s → counts media (count_step st ev) (dispatch ev s).
Proof.
  intros Hm (Hl & Hk & Hph). destruct st as [revealed k]. cbn in *.
  destruct revealed.
  - assert (Hi : lastVisibleVideo s < 5) by (by rewrite Hl).
    pose proof (resolved_dispatch ev s Hph) as Hr'.
    destruct ev; cbn [count_step fst snd andb];
      try (split; [by rewrite nonslide_keeps_last|by split]).
    destruct (to <? 5)%nat eqn:Hto; unfold counts; cbn [fst snd].
    + apply Nat.ltb_lt in Hto. by rewrite (slide_sets_last s to Hph Hi Hto).
    + apply Nat.ltb_ge in Hto.
      rewrite (slide_no_slide_keeps_last s to Hph Hi) by lia. by split.
  - destruct (decide (ev = ShowCollapse)) as [->|Hne].
    + cbn [count_step fst snd]. split; [by rewrite nonslide_keeps_last|].
      split; [done|]. by destruct (unresolved_show media s Hm Hph).
    + pose proof (unresolved_step media ev s Hne Hph) as Hu'.
      assert (Hkeep : lastVisibleVideo (dispatch ev s) = lastVisibleVideo s).
      { destruct ev; try (by apply nonslide_keeps_last).
        unfold dispatch, exec. cbn [handler].
        rewrite on_slide_unresolved; [done|].
        intros h. destruct Hph as (_ & -> & _). done. }
      destruct ev; try done; unfold counts; cbn [count_step fst snd andb];
        by rewrite Hkeep.
Qed.

Lemma counts_run (media : gmap nat video) (evs : list event)
    (st : bool * nat) (s : state) :
  (∀ i, i < 5 → is_Some (media !! i)) →
  counts media st s → counts media (count_from st evs) (run evs s).
Proof.
  intros Hm. revert st s. induction evs as [|ev evs IH]; intros st s Hc; [done|].
  cbn. apply IH. by apply counts_step.
Qed.

Lemma count_from_revealed (evs : list event) (st : bool * nat) :
  st.1 = true ∨ ShowCollapse ∈ evs → (count_from st evs).1 = true.
Proof.
  revert st. induction evs as [|ev evs IH]; intros st Hor.
  - destruct Hor as [?|Hin]; [done|]. by apply elem_of_nil in Hin.
  - change (count_from st (ev :: evs)) with (count_from (count_step st ev) evs).
    apply IH. destruct Hor as [Hst|Hin].
    + left. destruct st as [r k]. cbn in Hst. subst r.
      destruct ev; cbn [count_step fst snd andb]; try done.
      by destruct (to <? 5)%nat.
    + apply elem_of_cons in Hin as [Heq|Hin]; [|by right].
      left. by subst ev.
Qed.

(** C10, as the spec has it, fails: a slide change that arrives before the
    tab has been revealed throws on the empty array before its assignment.
    The most recent slide change reported index 2, yet hiding and showing
    the tab again resets and plays clip 0. *)
Lemma slide_before_reveal_not_counted :
  new_Sidebar example_markup example_media ∅ = Ok example_fresh ∧
  last_slide 0 [SlideCarousel 2; ShowCollapse; ShownCollapse] = 2 ∧
  lastVisibleVideo
    (run [SlideCarousel 2; ShowCollapse; ShownCollapse] example_fresh) = 0 ∧
  new_effects
    (run ([SlideCarousel 2; ShowCollapse; ShownCollapse] ++ [HiddenCollapse])
       example_fresh)
    (run ([SlideCarousel 2; ShowCollapse; ShownCollapse]
          ++ [HiddenCollapse; ShownCollapse]) example_fresh) =
    [SetCurrentTime 0 0; Play 0].
Proof. split; [|split; [|split]]; vm_compute; reflexivity. Qed.

(** C10, amended: the [shown] and [hidden] listeners (and every listener
    other than the slide one) leave [lastVisibleVideo] as it is, and a
    fresh panel starts with clip 0.  On a resolved panel, after any events
    whose slide indices are slides, hiding and showing the tab again resets
    and plays the clip of the most recent slide change, or the clip that
    was current when there was none.  For every interleaving of events on a
    sidebar whose markup has the five video elements, [lastVisibleVideo] is
    the index of the most recent slide change that counts: one that came
    after the tab was first revealed and whose index is a slide; the others
    throw before the assignment.  Once the tab has been revealed, hiding
    and showing it again resets and plays that clip. *)
Theorem current_clip_frame (s : state) (evs : list event) :
  resolved s → lastVisibleVideo s < 5 → Forall slide_in_range evs →
  (∀ markup media store s0,
     new_Sidebar markup media store = Ok s0 → lastVisibleVideo s0 = 0) ∧
  (∀ ev s0, (∀ to, ev ≠ SlideCarousel to) →
     lastVisibleVideo (dispatch ev s0) = lastVisibleVideo s0) ∧
  lastVisibleVideo (run evs s) = last_slide (lastVisibleVideo s) evs ∧
  lastVisibleVideo (run (evs ++ [HiddenCollapse; ShownCollapse]) s) =
    last_slide (lastVisibleVideo s) evs ∧
  new_effects (run (evs ++ [HiddenCollapse]) s)
              (run (evs ++ [HiddenCollapse; ShownCollapse]) s) =
    [SetCurrentTime (last_slide (lastVisibleVideo s) evs) 0;
     Play (last_slide (lastVisibleVideo s) evs)] ∧
  (∃ v, clips (run (evs ++ [HiddenCollapse; ShownCollapse]) s)
          !! last_slide (lastVisibleVideo s) evs = Some v ∧
        currentTime v = 0 ∧ playing v) ∧
  (∀ markup media store s0 evs0,
     new_Sidebar markup media store = Ok s0 →
     (∀ i, i < 5 → is_Some (media !! i)) →
     lastVisibleVideo (run evs0 s0) = counted_slide evs0 ∧
     (ShowCollapse ∈ evs0 →
      new_effects (run (evs0 ++ [HiddenCollapse]) s0)
                  (run (evs0 ++ [HiddenCollapse; ShownCollapse]) s0) =
        [SetCurrentTime (counted_slide evs0) 0; Play (counted_slide evs0)])).
Proof.
  intros Hr Hi Hevs.
  destruct (run_last_slide evs s Hr Hi Hevs) as (Hr1 & Hl1 & Hi1).
  assert (Hshape : ∀ l x, run (l ++ [HiddenCollapse; ShownCollapse]) x =
            dispatch ShownCollapse (dispatch HiddenCollapse (run l x))).
  { intros l x. by rewrite run_app. }
  assert (Hshape1 : ∀ l x, run (l ++ [HiddenCollapse]) x =
            dispatch HiddenCollapse (run l x)).
  { intros l x. by rewrite run_app. }
  split.
  { intros markup media store s0. unfold new_Sidebar.
    destruct (forallb _ listened); [|discriminate]. by intros [= <-]. }
  split; [apply nonslide_keeps_last|]. split; [exact Hl1|].
  rewrite Hshape, Hshape1. rewrite <- Hl1.
  destruct (reshow_effect (run evs s) Hr1 Hi1) as (He & Hv).
  split; [by rewrite !nonslide_keeps_last|]. split; [exact He|].
  split; [exact Hv|].
  intros markup media store s0 evs0 Hnew Hm.
  assert (Hc0 : counts media (false, 0) s0).
  { destruct (new_Sidebar_inv _ _ _ _ Hnew) as (-> & _).
    split; [done|]. split; [cbn; lia|]. by repeat split. }
  pose proof (counts_run media evs0 _ s0 Hm Hc0) as (Hl & Hk & Hph).
  fold (counted_slide evs0) in Hl, Hk. split; [exact Hl|].
  intros Hin. rewrite (count_from_revealed evs0 (false, 0)) in Hph by (by right).
  rewrite Hshape, Hshape1, <- Hl.
  apply reshow_effect; [done|by rewrite Hl].
Qed.

(** A fresh panel is revealed, the carousel slides to 3 and then to 1, and
    the tab is hidden and shown again: clip 1 plays. *)
Lemma current_clip_frame_witness :
  resolved example_resolved ∧ lastVisibleVideo example_resolved < 5 ∧
  Forall slide_in_range [ShownCollapse; SlideCarousel 3; SlideCarousel 1] ∧
  lastVisibleVideo
    (run ([ShownCollapse; SlideCarousel 3; SlideCarousel 1]
          ++ [HiddenCollapse; ShownCollapse]) example_resolved) = 1.
Proof.
  assert (Hr : resolved example_resolved).
  { split; [vm_compute; reflexivity|]. split; [vm_compute; reflexivity|].
    intros i Hi. do 5 (destruct i as [|i]; [vm_compute; eauto|]). lia. }
  assert (Hi : lastVisibleVideo example_resolved < 5) by (vm_compute; lia).
  assert (Hev : Forall slide_in_range
                  [ShownCollapse; SlideCarousel 3; SlideCarousel 1])
    by (repeat constructor; cbn; lia).
  split; [exact Hr|]. split; [exact Hi|]. split; [exact Hev|].
  destruct (current_clip_frame example_resolved _ Hr Hi Hev)
    as (_ & _ & _ & Hl & _).
  exact Hl.
Defined.

(** ** Further properties of the visibility controller *)

Lemma emits_refl (Q : effect → Prop) (s : state) : emits Q s s.
Proof. exists []. by rewrite app_nil_r. Qed.

Lemma emits_emit (Q : effect → Prop) (s0 s s' : state) (e : effect) :
  Q e → effects s' = effects s → emits Q s0 s → emits Q s0 (emit e s').
Proof.
  intros He Heq (l & Hl & HQ). exists (l ++ [e]). split.
  - unfold effects in *. cbn. rewrite fmap_app, Heq, Hl. cbn.
    by rewrite <- app_assoc.
  - apply Forall_app. by split; [|apply Forall_singleton].
Qed.

Lemma emits_weaken (Q Q' : effect → Prop) (s0 s : state) :
  (∀ e, Q e → Q' e) → emits Q s0 s → emits Q' s0 s.
Proof.
  intros HQ (l & Hl & Hf). exists l. split; [done|].
  eapply Forall_impl; [exact Hf|exact HQ].
Qed.

Lemma emits_trans (Q : effect → Prop) (s0 s1 s2 : state) :
  emits Q s0 s1 → emits Q s1 s2 → emits Q s0 s2.
Proof.
  intros (l1 & H1 & Q1) (l2 & H2 & Q2). exists (l1 ++ l2). split.
  - by rewrite H2, H1, <- app_assoc.
  - by apply Forall_app.
Qed.

Section Emits.
Context (Q : effect → Prop) (s0 : state).

Lemma emits_classList_add id cls :
  Q (ClassAdd id cls) → preserves (emits Q s0) (classList_add id cls).
Proof.
  intros HQ s Hs. unfold classList_add. destruct (classes s !! id); [|done].
  by apply (emits_emit Q s0 s).
Qed.

Lemma emits_classList_remove id cls :
  Q (ClassRemove id cls) → preserves (emits Q s0) (classList_remove id cls).
Proof.
  intros HQ s Hs. unfold classList_remove. destruct (classes s !! id); [|done].
  by apply (emits_emit Q s0 s).
Qed.

Lemma emits_assign_visible v :
  Q (AssignVisible v) → preserves (emits Q s0) (assign_visible v).
Proof. intros HQ s Hs. by apply (emits_emit Q s0 s). Qed.

Lemma emits_setKey k v :
  Q (SetKey k v) → preserves (emits Q s0) (setKey k v).
Proof. intros HQ s Hs. by apply (emits_emit Q s0 s). Qed.

Lemma emits_update_clip f e h :
  Q e → preserves (emits Q s0) (update_clip f e h).
Proof. intros HQ s Hs. by apply (emits_emit Q s0 s). Qed.

Lemma emits_assign_videos i el :
  Q (AssignVideos i el) → preserves (emits Q s0) (assign_videos i el).
Proof. intros HQ s Hs. by apply (emits_emit Q s0 s). Qed.

Lemma emits_assign_last k :
  Q (AssignLastVisibleVideo k) →
  preserves (emits Q s0) (assign_lastVisibleVideo k).
Proof. intros HQ s Hs. by apply (emits_emit Q s0 s). Qed.
End Emits.

Ltac emits_step :=
  first
    [ apply preserves_bind; [|intros ?]
    | apply preserves_for_each; intros ?
    | apply preserves_ret
    | apply preserves_this_visible
    | apply preserves_this_lastVisibleVideo
    | apply preserves_querySelector_video
    | apply preserves_videos_at
    | apply emits_classList_add; done
    | apply emits_classList_remove; done
    | apply emits_assign_visible; done
    | apply emits_setKey; done
    | apply emits_update_clip; done
    | apply emits_assign_videos; done
    | apply emits_assign_last; done ].

(** [setVisibility] executes statements about the view only. *)
Lemma setVisibility_emits (s0 : state) (v : bool) :
  preserves (emits about_view s0) (setVisibility v).
Proof.
  unfold setVisibility. apply preserves_bind; [apply preserves_this_visible|].
  intros cur. destruct (negb (eqb cur v)); [|apply preserves_ret].
  destruct v; repeat emits_step.
Qed.

(** The playback listeners execute statements about the clips only. *)
Lemma playback_emits (s0 : state) (ev : event) :
  is_playback ev = true → preserves (emits about_playback s0) (handler ev).
Proof.
  destruct ev; try discriminate; intros _; cbn [handler].
  - intros s Hs. unfold on_show. destruct (show_once s); [|done].
    assert (Hp : preserves (emits about_playback s0) resolve_videos).
    { unfold resolve_videos, resolve_video, set_src, set_loop.
      repeat emits_step. }
    apply Hp. destruct Hs as (l & Hl & HQ). by exists l.
  - unfold on_shown, set_currentTime, play. repeat emits_step.
  - unfold on_hidden, pause. repeat emits_step.
  - unfold on_slide, set_currentTime, play, pause. repeat emits_step.
Qed.

Lemma dispatch_emits (ev : event) (s : state) :
  emits (if is_playback ev then about_playback else about_view) s (dispatch ev s).
Proof.
  unfold dispatch, exec. destruct (is_playback ev) eqn:Hpb.
  - apply playback_emits; [done|apply emits_refl].
  - destruct ev; try discriminate; cbn [handler];
      apply setVisibility_emits, emits_refl.
Qed.

Lemma dispatch_extends (ev : event) (s : state) :
  emits (λ _, True) s (dispatch ev s).
Proof. eapply emits_weaken; [|apply dispatch_emits]. done. Qed.

Lemma run_extends (evs : list event) (s : state) :
  emits (λ _, True) s (run evs s).
Proof.
  revert s. induction evs as [|ev evs IH]; intros s; [apply emits_refl|].
  cbn. eapply emits_trans; [apply dispatch_extends|apply IH].
Qed.

Lemma new_effects_trans (s s1 s2 : state) :
  emits (λ _, True) s s1 → emits (λ _, True) s1 s2 →
  new_effects s s2 = new_effects s s1 ++ new_effects s1 s2.
Proof.
  intros (l1 & H1 & _) (l2 & H2 & _).
  rewrite (new_effects_app s s1 l1 H1), (new_effects_app s1 s2 l2 H2).
  apply new_effects_app. by rewrite H2, H1, <- app_assoc.
Qed.

Lemma new_effects_refl (s : state) : new_effects s s = [].
Proof. apply new_effects_app. by rewrite app_nil_r. Qed.

(** The outcome of a state change on a document that lacks one of the three
    elements: the statements before the first missing element are executed,
    then the member access on [null] throws. *)
Lemma setVisibility_missing (s : state) (v : bool) :
  visible s ≠ v → ¬ present s →
  ∃ s' n, setVisibility v s = (Throw TypeError, s') ∧ n < 3 ∧
    effects s' = effects s ++ take n (toggles v) ∧
    visible s' = visible s ∧ settings s' = settings s ∧
    play_part s' = play_part s ∧ (classes s !! area = None → s' = s).
Proof.
  intros Hne Hnp.
  destruct ids_distinct as (Hah & Has & Hhs).
  unfold setVisibility. rewrite bind_unfold. cbn [this_visible].
  replace (negb (eqb (visible s) v)) with true
    by (destruct (visible s), v; done).
  destruct (classes s !! area) as [ca|] eqn:Ha.
  - destruct (classes s !! hide_button) as [ch|] eqn:Hh.
    + destruct (classes s !! show_button) as [cs|] eqn:Hs.
      { destruct Hnp. unfold present. rewrite Ha, Hh, Hs. eauto. }
      destruct v;
        repeat first
          [ rewrite bind_unfold
          | progress unfold classList_add, classList_remove
          | progress cbn [classes set_classes emit set_trace]
          | rewrite Ha | rewrite Hh | rewrite Hs
          | rewrite lookup_insert_ne by done ];
        (eexists _, 2; split; [reflexivity|]);
        unfold effects; cbn; rewrite <- !app_assoc, !fmap_app; cbn;
        (split; [lia|]); repeat split; try done; by rewrite <- !app_assoc.
    + destruct v;
        repeat first
          [ rewrite bind_unfold
          | progress unfold classList_add, classList_remove
          | progress cbn [classes set_classes emit set_trace]
          | rewrite Ha | rewrite Hh
          | rewrite lookup_insert_ne by done ];
        (eexists _, 1; split; [reflexivity|]);
        unfold effects; cbn; rewrite !fmap_app; cbn;
        (split; [lia|]); repeat split; done.
  - destruct v;
      repeat first
        [ rewrite bind_unfold
        | progress unfold classList_add, classList_remove
        | rewrite Ha ];
      (exists s, 0; split; [reflexivity|]);
      cbn; rewrite app_nil_r; (split; [lia|]); repeat split; done.
Qed.


Section SameDocument.
Context (s0 : state).

Lemma same_document_refl : same_document s0 s0.
Proof. by repeat split. Qed.

Lemma same_document_classes (id : string) (f : gset string → gset string) (e : effect) :
  id ∈ toggled_ids →
  (∀ c cls, cls ≠ "visible" → bool_decide (cls ∈ f c) = bool_decide (cls ∈ c)) →
  ∀ s c, classes s !! id = Some c → same_document s0 s →
    same_document s0 (emit e (set_classes (<[id := f c]> (classes s)) s)).
Proof.
  intros Hid Hf s c Hc (Hd & Hdc & Hk). split; [|split; [done|]].
  - cbn. rewrite dom_insert_lookup_L; [done|]. by rewrite Hc.
  - intros id' cls Hor. rewrite <- (Hk id' cls Hor). unfold has_class. cbn.
    destruct (decide (id' = id)) as [->|Hne].
    + rewrite lookup_insert_eq, Hc. destruct Hor as [Hnot|Hcls]; [done|].
      by apply Hf.
    + by rewrite lookup_insert_ne.
Qed.

Lemma same_document_add (id : string) :
  id ∈ toggled_ids → preserves (same_document s0) (classList_add id "visible").
Proof.
  intros Hid s Hs. unfold classList_add.
  destruct (classes s !! id) as [c|] eqn:Hc; [|done]. cbn [snd].
  apply (same_document_classes id (λ c, {["visible"]} ∪ c)); try done.
  intros c' cls Hcls. by apply (with_visible_other true).
Qed.

Lemma same_document_remove (id : string) :
  id ∈ toggled_ids → preserves (same_document s0) (classList_remove id "visible").
Proof.
  intros Hid s Hs. unfold classList_remove.
  destruct (classes s !! id) as [c|] eqn:Hc; [|done]. cbn [snd].
  apply (same_document_classes id (λ c, c ∖ {["visible"]})); try done.
  intros c' cls Hcls. by apply (with_visible_other false).
Qed.

Lemma same_document_update_clip f e h :
  preserves (same_document s0) (update_clip f e h).
Proof.
  intros s (Hd & Hdc & Hk). split; [done|]. split; [|done].
  cbn. by rewrite dom_alter_L.
Qed.

Lemma same_document_setVisibility v :
  preserves (same_document s0) (setVisibility v).
Proof.
  assert (Ha : area ∈ toggled_ids) by apply list_elem_of_here.
  assert (Hh : hide_button ∈ toggled_ids)
    by apply list_elem_of_further, list_elem_of_here.
  assert (Hs : show_button ∈ toggled_ids)
    by apply list_elem_of_further, list_elem_of_further, list_elem_of_here.
  unfold setVisibility. apply preserves_bind; [apply preserves_this_visible|].
  intros cur. destruct (negb (eqb cur v)); [|apply preserves_ret].
  destruct v;
    repeat first
      [ apply preserves_bind; [|intros ?]
      | by apply same_document_add
      | by apply same_document_remove
      | by intros ? ? ].
Qed.

Lemma same_document_handler ev : preserves (same_document s0) (handler ev).
Proof.
  destruct ev; cbn [handler]; try apply same_document_setVisibility.
  - intros s Hs. unfold on_show. destruct (show_once s); [|done].
    assert (Hp : preserves (same_document s0) resolve_videos).
    { unfold resolve_videos, resolve_video, set_src, set_loop.
      repeat first
        [ apply preserves_bind; [|intros ?]
        | apply preserves_for_each; intros ?
        | apply preserves_querySelector_video
        | apply preserves_videos_at
        | apply same_document_update_clip
        | by intros ? ? ]. }
    by apply Hp.
  - unfold on_shown, set_currentTime, play.
    repeat first
      [ apply preserves_bind; [|intros ?]
      | apply preserves_this_lastVisibleVideo
      | apply preserves_videos_at
      | apply same_document_update_clip ].
  - unfold on_hidden, pause.
    repeat first
      [ apply preserves_bind; [|intros ?]
      | apply preserves_this_lastVisibleVideo
      | apply preserves_videos_at
      | apply same_document_update_clip ].
  - unfold on_slide, set_currentTime, play, pause.
    repeat first
      [ apply preserves_bind; [|intros ?]
      | apply preserves_this_lastVisibleVideo
      | apply preserves_videos_at
      | apply same_document_update_clip
      | by intros ? ? ].
Qed.
End SameDocument.

Lemma same_document_run (evs : list event) (s0 s : state) :
  same_document s0 s → same_document s0 (run evs s).
Proof.
  revert s. induction evs as [|ev evs IH]; intros s Hs; [done|].
  cbn. apply IH. by apply (same_document_handler s0 ev s).
Qed.

(** X2: what no event changes in the document.  Whatever events are
    dispatched, and whether listeners throw or not, no element appears or
    disappears, and the only thing that changes in a class list is the
    class [visible] of the panel area and of the two buttons. *)
Theorem document_frame (s : state) (evs : list event) :
  dom (classes (run evs s)) = dom (classes s) ∧
  dom (clips (run evs s)) = dom (clips s) ∧
  ∀ id cls, id ∉ toggled_ids ∨ cls ≠ "visible" →
    has_class (run evs s) id cls = has_class s id cls.
Proof. apply (same_document_run evs s s), same_document_refl. Qed.

Lemma setVisibility_change_view (s : state) (v : bool) :
  present s → visible s ≠ v →
  view_shows (exec (setVisibility v) s) v ∧ visible (exec (setVisibility v) s) = v.
Proof.
  intros ([ca Ha] & [ch Hh] & [cs Hs]) Hne.
  destruct (setVisibility_change s v ca ch cs Hne Ha Hh Hs)
    as (s' & Hrun & Hv & _ & _ & _ & _ & Hc & _).
  destruct (exec_outcome _ _ _ _ Hrun) as [_ ->].
  destruct ids_distinct as (Hah & Has & Hhs).
  split; [|done]. unfold view_shows, has_class. rewrite Hc.
  rewrite lookup_insert_ne, lookup_insert_ne, lookup_insert_eq by done.
  rewrite lookup_insert_ne, lookup_insert_eq by done.
  rewrite lookup_insert_eq.
  by rewrite !with_visible_elem.
Qed.

Lemma setVisibility_view (s : state) (v : bool) :
  present s → view_shows s (visible s) →
  view_shows (exec (setVisibility v) s) (visible (exec (setVisibility v) s)).
Proof.
  intros Hp Hview. destruct (decide (visible s = v)) as [Heq|Hne].
  - by rewrite (proj2 (exec_outcome _ _ _ _ (setVisibility_same s v Heq))).
  - destruct (setVisibility_change_view s v Hp Hne) as (Hvs & ->). exact Hvs.
Qed.

Lemma dispatch_view (ev : event) (s : state) :
  present s → view_shows s (visible s) →
  view_shows (dispatch ev s) (visible (dispatch ev s)).
Proof.
  intros Hp Hview. destruct (is_playback ev) eqn:Hpb.
  - pose proof (playback_keeps_vis ev s Hpb) as Heq.
    unfold vis_part in Heq. injection Heq as Hv Hc _.
    unfold view_shows, has_class in *. by rewrite Hv, Hc.
  - destruct ev; try discriminate; unfold dispatch; cbn [handler];
      by apply setVisibility_view.
Qed.

(** X3: the view follows the in-memory value.  On a document that has the
    three elements, a state change leaves the panel area and the hide button
    with [visible] iff the new value is [true] and the show button iff it is
    [false], whatever the classes were before; and once view and memory
    agree, they agree after every event. *)
Theorem view_follows_memory (s : state) (evs : list event) :
  present s →
  (∀ v, visible s ≠ v → view_shows (exec (setVisibility v) s) v) ∧
  (view_shows s (visible s) →
   view_shows (run evs s) (visible (run evs s))).
Proof.
  intros Hp. split; [intros v Hne; by apply setVisibility_change_view|].
  revert s Hp. induction evs as [|ev evs IH]; intros s Hp Hview; [done|].
  cbn. apply IH; [by apply dispatch_present|by apply dispatch_view].
Qed.

(** A store that says hidden over markup rendered open: after the fetch
    and two clicks the view shows what memory holds. *)
Lemma view_follows_memory_witness :
  present example_fresh ∧ view_shows example_fresh (visible example_fresh) ∧
  view_shows (run [ClickHide; ShowCollapse; ClickShow; ClickHide] example_fresh)
    (visible (run [ClickHide; ShowCollapse; ClickShow; ClickHide] example_fresh)).
Proof.
  assert (Hview : view_shows example_fresh (visible example_fresh))
    by (split; [|split]; vm_compute; reflexivity).
  split; [exact example_fresh_present|]. split; [exact Hview|].
  exact (proj2 (view_follows_memory example_fresh
                  [ClickHide; ShowCollapse; ClickShow; ClickHide]
                  example_fresh_present) Hview).
Defined.

Lemma dom_is_Some {A} (m m' : gmap string A) (k : string) :
  dom m' = dom m → is_Some (m' !! k) ↔ is_Some (m !! k).
Proof. intros Hd. by rewrite <- !elem_of_dom, Hd. Qed.

(** X4: on a sidebar the constructor accepted, [setVisibility] is all or
    nothing.  The constructor has checked the two buttons, so only the
    panel area can be missing, and it is the first element the method
    touches: after any events, a call completes when the markup has the
    panel area, and otherwise a call that would change the state throws
    and leaves the state exactly as it was. *)
Theorem constructed_setVisibility_atomic
    (markup : gmap string (gset string)) (media : gmap nat video)
    (store : gmap string bool) (s0 : state) (evs : list event) (v : bool) :
  new_Sidebar markup media store = Ok s0 →
  (is_Some (markup !! area) → outcome (setVisibility v) (run evs s0) = Ok tt) ∧
  (markup !! area = None → visible (run evs s0) ≠ v →
   setVisibility v (run evs s0) = (Throw TypeError, run evs s0)).
Proof.
  intros Hnew. destruct (new_Sidebar_inv _ _ _ _ Hnew) as (-> & Hs & Hh).
  set (s0 := State true [] 0 true markup media store []) in *.
  destruct (same_document_run evs s0 s0 (same_document_refl s0)) as (Hd & _).
  split.
  - intros Ha. apply setVisibility_frame. unfold present.
    by rewrite !(dom_is_Some _ _ _ Hd).
  - intros Ha Hne.
    assert (Hnone : classes (run evs s0) !! area = None).
    { apply eq_None_not_Some. rewrite (dom_is_Some _ _ _ Hd). cbn.
      rewrite Ha. by intros [? ?]. }
    assert (Hnp : ¬ present (run evs s0)).
    { intros (Hp & _). rewrite Hnone in Hp. by destruct Hp. }
    destruct (setVisibility_missing _ v Hne Hnp) as (s' & n & Hrun & _ & _ & _ & _ & _ & Hs').
    by rewrite Hrun, (Hs' Hnone).
Qed.

Lemma constructed_setVisibility_atomic_witness :
  new_Sidebar example_markup example_media ∅ = Ok example_fresh ∧
  outcome (setVisibility false)
    (run [ShownCollapse; ClickHide; ClickShow] example_fresh) = Ok tt.
Proof.
  split; [exact new_example_fresh|].
  apply (constructed_setVisibility_atomic example_markup example_media ∅
           example_fresh [ShownCollapse; ClickHide; ClickShow] false
           new_example_fresh).
  refine (bool_decide_unpack _ _). vm_compute. exact I.
Defined.

(** ** The persisted value and the initial fetch *)

(** C5, as the spec has it, fails: on a fresh panel whose store holds
    [false], [setVisibility(true)] finds [true] in memory, does nothing,
    and the persisted key still reads [false]. *)
Lemma roundtrip_fails_before_agreement :
  new_Sidebar example_markup example_media {["sidebarVisible" := false]}
    = Ok example_stale ∧
  outcome (setVisibility true) example_stale = Ok tt ∧
  getKey "sidebarVisible" (exec (setVisibility true) example_stale) = false.
Proof. split; [|split]; vm_compute; reflexivity. Qed.

(** C5, amended: round trip with the Settings Store.  A call that changes
    the state writes its value, so the key then reads it and memory and
    store agree.  A call with the value already in memory writes nothing,
    so the key reads what the store held.  Hence the round trip holds for
    every value once memory and store agree, and they agree after every
    event from then on; they agree at the latest when the fetch issued at
    construction has resolved, whatever events come before or after it. *)
Theorem setVisibility_roundtrip (s : state) (v : bool) :
  present s →
  (visible s ≠ v →
   getKey "sidebarVisible" (exec (setVisibility v) s) = v ∧
   agrees (exec (setVisibility v) s)) ∧
  (visible s = v →
   getKey "sidebarVisible" (exec (setVisibility v) s) = getKey "sidebarVisible" s) ∧
  (agrees s → ∀ evs : list event,
     getKey "sidebarVisible" (exec (setVisibility v) (run evs s)) = v) ∧
  (∀ evs1 evs2 : list event,
     getKey "sidebarVisible"
       (exec (setVisibility v)
          (run (evs1 ++ FetchResolved (getKey "sidebarVisible" s) :: evs2) s)) = v).
Proof.
  intros Hp. split; [|split; [|split]].
  - intros Hne. apply setVisibility_agrees; [done|by left].
  - intros Heq.
    by rewrite (proj2 (exec_outcome _ _ _ _ (setVisibility_same s v Heq))).
  - intros Hag evs. destruct (run_present_agrees evs s Hp Hag) as [Hp' Hag'].
    apply setVisibility_agrees; [done|by right].
  - intros evs1 evs2. rewrite run_app.
    change (run (?e :: evs2) ?x) with (run evs2 (dispatch e x)).
    set (v0 := getKey "sidebarVisible" s).
    assert (Hor : agrees s ∨ (visible s ≠ v0 ∧ getKey "sidebarVisible" s = v0)).
    { destruct (decide (visible s = v0)) as [Heq|Hne]; [by left|by right]. }
    destruct (pending_run v0 evs1 s Hp Hor) as (Hp1 & Hor1).
    pose proof (pending_fetch v0 _ Hp1 Hor1) as Hag.
    destruct (run_present_agrees evs2 _ (dispatch_present _ _ Hp1) Hag)
      as [Hp2 Hag2].
    apply setVisibility_agrees; [done|by right].
Qed.

(** The stale panel: a click that changes nothing, the fetch, a click. *)
Lemma setVisibility_roundtrip_witness :
  present example_stale ∧
  getKey "sidebarVisible"
    (exec (setVisibility true)
       (run ([ClickShow] ++ FetchResolved (getKey "sidebarVisible" example_stale)
             :: [ClickShow]) example_stale)) = true.
Proof.
  assert (Hp : present example_stale).
  { split; [|split]; refine (bool_decide_unpack _ _); vm_compute; exact I. }
  split; [exact Hp|].
  destruct (setVisibility_roundtrip example_stale true Hp) as (_ & _ & _ & H).
  exact (H [ClickShow] [ClickShow]).
Defined.

(** C8, as the spec has it, fails for the view: over markup that renders
    the panel closed and a store without the key, the fetch resolves with
    the default [true], memory holds [true], and the panel area still has
    no [visible] class. *)
Lemma fresh_closed_markup_stays_closed :
  new_Sidebar example_closed_markup example_media ∅ = Ok example_closed ∧
  getKey "sidebarVisible" example_closed = true ∧
  visible (dispatch (FetchResolved (getKey "sidebarVisible" example_closed))
             example_closed) = true ∧
  has_class (dispatch (FetchResolved (getKey "sidebarVisible" example_closed))
               example_closed) area "visible" = false.
Proof. split; [|split; [|split]]; vm_compute; reflexivity. Qed.

(** C8, amended: a fresh panel and the resolution of the initial fetch.
    Without a [sidebarVisible] entry the fetch resolves with the default
    [true]; that is the value the field was initialised with, so the call
    does nothing: memory holds [true] and every class list is as the markup
    rendered it.  A fetch that resolves with [false] closes the panel: in
    memory, in the three toggles and in the store. *)
Theorem fresh_panel_default_visible
    (markup : gmap string (gset string)) (media : gmap nat video)
    (store : gmap string bool) (s : state) :
  new_Sidebar markup media store = Ok s →
  (store !! "sidebarVisible" = None →
   getKey "sidebarVisible" s = true ∧
   handler (FetchResolved (getKey "sidebarVisible" s)) s = (Ok tt, s) ∧
   visible (dispatch (FetchResolved (getKey "sidebarVisible" s)) s) = true ∧
   classes (dispatch (FetchResolved (getKey "sidebarVisible" s)) s) = markup) ∧
  (store !! "sidebarVisible" = Some false → is_Some (markup !! area) →
   getKey "sidebarVisible" s = false ∧
   visible (dispatch (FetchResolved (getKey "sidebarVisible" s)) s) = false ∧
   view_shows (dispatch (FetchResolved (getKey "sidebarVisible" s)) s) false ∧
   getKey "sidebarVisible"
     (dispatch (FetchResolved (getKey "sidebarVisible" s)) s) = false).
Proof.
  intros Hnew. destruct (new_Sidebar_inv _ _ _ _ Hnew) as (-> & Hs & Hh).
  set (s0 := State true [] 0 true markup media store []).
  split.
  - intros Hstore.
    assert (Hget : getKey "sidebarVisible" s0 = true).
    { unfold getKey. cbn [settings s0]. by rewrite Hstore. }
    rewrite Hget. unfold dispatch, exec. cbn [handler].
    by rewrite (setVisibility_same s0 true).
  - intros Hstore Ha.
    assert (Hget : getKey "sidebarVisible" s0 = false).
    { unfold getKey. cbn [settings s0]. by rewrite Hstore. }
    rewrite Hget. unfold dispatch. cbn [handler].
    assert (Hp : present s0) by done.
    assert (Hne : visible s0 ≠ false) by done.
    destruct (setVisibility_change_view s0 false Hp Hne) as (Hview & Hv).
    destruct (setVisibility_agrees s0 false Hp (or_introl Hne)) as (Hk & _).
    done.
Qed.

Lemma fresh_panel_default_visible_witness :
  new_Sidebar example_markup example_media ∅ = Ok example_fresh ∧
  visible (dispatch (FetchResolved (getKey "sidebarVisible" example_fresh))
             example_fresh) = true ∧
  classes (dispatch (FetchResolved (getKey "sidebarVisible" example_fresh))
             example_fresh) = example_markup.
Proof.
  split; [exact new_example_fresh|].
  destruct (fresh_panel_default_visible example_markup example_media ∅
              example_fresh new_example_fresh) as (H & _).
  destruct (H (lookup_empty _)) as (_ & _ & Hv & Hc).
  split; [exact Hv|exact Hc].
Defined.

Lemma written_app (l l' : list effect) :
  written (l ++ l') = written l ++ written l'.
Proof. apply omap_app. Qed.

Lemma written_playback (l : list effect) :
  Forall about_playback l → written l = [].
Proof.
  induction 1 as [|e l He _ IH]; [done|].
  unfold written in *. by destruct e.
Qed.

(** One call: no write and the old value, or one write of the flipped
    value, which is then the value in memory. *)
Lemma setVisibility_written (s : state) (v : bool) :
  (written (new_effects s (exec (setVisibility v) s)) = [] ∧
   visible (exec (setVisibility v) s) = visible s) ∨
  (written (new_effects s (exec (setVisibility v) s)) = [negb (visible s)] ∧
   visible (exec (setVisibility v) s) = negb (visible s)).
Proof.
  destruct (decide (visible s = v)) as [Heq|Hne].
  - left. rewrite (proj2 (exec_outcome _ _ _ _ (setVisibility_same s v Heq))).
    by rewrite new_effects_refl.
  - destruct (decide (present s)) as [Hp|Hnp].
    + right. destruct Hp as ([ca Ha] & [ch Hh] & [cs Hs]).
      destruct (setVisibility_change s v ca ch cs Hne Ha Hh Hs)
        as (s' & Hrun & Hv & _ & _ & _ & _ & _ & _ & He & _).
      destruct (exec_outcome _ _ _ _ Hrun) as [_ ->].
      rewrite (new_effects_app _ _ _ He), Hv.
      replace (negb (visible s)) with v by (destruct (visible s), v; done).
      by destruct v.
    + left. destruct (setVisibility_missing s v Hne Hnp)
        as (s' & n & Hrun & Hn & He & Hv & _).
      destruct (exec_outcome _ _ _ _ Hrun) as [_ ->].
      rewrite (new_effects_app _ _ _ He). split; [|done].
      destruct v; do 3 (destruct n as [|n]; [done|]); lia.
Qed.

Lemma dispatch_written (ev : event) (s : state) :
  (written (new_effects s (dispatch ev s)) = [] ∧
   visible (dispatch ev s) = visible s) ∨
  (written (new_effects s (dispatch ev s)) = [negb (visible s)] ∧
   visible (dispatch ev s) = negb (visible s)).
Proof.
  destruct (is_playback ev) eqn:Hpb.
  - left. split.
    + pose proof (dispatch_emits ev s) as (l & Hl & HQ). rewrite Hpb in HQ.
      rewrite (new_effects_app _ _ _ Hl). by apply written_playback.
    + pose proof (playback_keeps_vis ev s Hpb) as Heq.
      unfold vis_part in Heq. by injection Heq.
  - destruct ev; try discriminate; unfold dispatch; cbn [handler];
      apply setVisibility_written.
Qed.

(** X5: the store is written only when the state has changed.  From any
    state and for any events, the values written to the Settings Store
    alternate, starting with the negation of the value memory held; the
    same value is never written twice in a row, and the last value written
    is the value memory holds at the end. *)
Theorem writes_alternate (s : state) (evs : list event) :
  alternating (negb (visible s)) (written (new_effects s (run evs s))) ∧
  visible (run evs s) =
    default (visible s) (last (written (new_effects s (run evs s)))).
Proof.
  revert s. induction evs as [|ev evs IH]; intros s.
  - cbn [run foldl]. by rewrite new_effects_refl.
  - change (run (ev :: evs) s) with (run evs (dispatch ev s)).
    rewrite (new_effects_trans s (dispatch ev s) _
               (dispatch_extends ev s) (run_extends evs _)), written_app.
    destruct (IH (dispatch ev s)) as (Halt & Hlast).
    destruct (dispatch_written ev s) as [(-> & Hv)|(-> & Hv)].
    + rewrite Hv in Halt, Hlast. by rewrite app_nil_l.
    + rewrite Hv in Halt, Hlast. cbn [app]. split.
      * cbn [alternating]. split; [done|exact Halt].
      * rewrite Hlast.
        destruct (written (new_effects (dispatch ev s) (run evs (dispatch ev s))))
          as [|x l]; [done|]. rewrite last_cons_cons.
        destruct (last (x :: l)) as [y|] eqn:E; [done|].
        by apply last_None in E.
Qed.

Lemma setVisibility_visible (s : state) (v : bool) :
  present s → visible (exec (setVisibility v) s) = v.
Proof.
  intros Hp. destruct (decide (visible s = v)) as [Heq|Hne].
  - by rewrite (proj2 (exec_outcome _ _ _ _ (setVisibility_same s v Heq))).
  - by apply setVisibility_change_view.
Qed.

(** X6: the last request wins.  On a document that has the three elements,
    the value in memory after any events is the value of the most recent
    click, change notification or fetch resolution (the initial value when
    there was none): a fetch that resolves after a click applies the value
    read at construction over it.  Once memory and store agree, the
    persisted value is that value too.  Playback events do not count. *)
Theorem last_request_wins (s : state) (evs : list event) :
  present s →
  visible (run evs s) = last_request (visible s) evs ∧
  (agrees s →
   getKey "sidebarVisible" (run evs s) = last_request (visible s) evs).
Proof.
  intros Hp.
  assert (Hvis : visible (run evs s) = last_request (visible s) evs).
  { revert s Hp. induction evs as [|ev evs IH]; intros s Hp; [done|].
    change (run (ev :: evs) s) with (run evs (dispatch ev s)).
    assert (Hv : visible (dispatch ev s) = last_request (visible s) [ev]).
    { destruct (is_playback ev) eqn:Hpb.
      - pose proof (playback_keeps_vis ev s Hpb) as Heq.
        unfold vis_part in Heq. injection Heq as -> _ _. by destruct ev.
      - destruct ev; try discriminate; cbn;
          unfold dispatch; cbn [handler]; by apply setVisibility_visible. }
    change (last_request (visible s) (ev :: evs))
      with (last_request (last_request (visible s) [ev]) evs).
    rewrite <- Hv. apply IH. by apply dispatch_present. }
  split; [exact Hvis|]. intros Hag.
  destruct (run_present_agrees evs s Hp Hag) as (_ & Hag').
  by rewrite Hag'.
Qed.

(** The hide button is clicked, then the fetch resolves with [true]. *)
Lemma last_request_wins_witness :
  present example_fresh ∧
  visible (run [ClickHide; ShowCollapse; FetchResolved true; ShownCollapse]
             example_fresh) = true.
Proof.
  split; [exact example_fresh_present|].
  exact (proj1 (last_request_wins example_fresh
                  [ClickHide; ShowCollapse; FetchResolved true; ShownCollapse]
                  example_fresh_present)).
Defined.

(** ** The two controllers do not interfere *)

Section Respects.
Context (R : state → state → Prop).

Lemma respects_ret {A} (a : A) : respects R (mret a).
Proof. by intros s1 s2 HR. Qed.

Lemma respects_bind {A B} (m : M A) (k : A → M B) :
  respects R m → (∀ a, respects R (k a)) → respects R (m ≫= k).
Proof.
  intros Hm Hk s1 s2 HR. rewrite !bind_unfold.
  destruct (Hm s1 s2 HR) as (Hres & HR').
  destruct (m s1) as [r1 t1], (m s2) as [r2 t2]. cbn in *. subst r2.
  destruct r1 as [a|e]; [by apply Hk|done].
Qed.

Lemma respects_for_each (l : list nat) (body : nat → M unit) :
  (∀ i, respects R (body i)) → respects R (for_each l body).
Proof.
  intros Hb. induction l as [|i l IH]; cbn [for_each].
  - apply respects_ret.
  - apply respects_bind; [apply Hb|by intros _].
Qed.
End Respects.

Lemma same_vis_setVisibility (v : bool) : respects same_vis (setVisibility v).
Proof.
  assert (Hadd : ∀ id cls, respects same_vis (classList_add id cls)).
  { intros id cls s1 s2 HR. unfold same_vis, vis_part in *.
    injection HR as Hv Hc Hs. unfold classList_add. rewrite Hc.
    destruct (classes s2 !! id); cbn; by rewrite ?Hv, ?Hc, ?Hs. }
  assert (Hrem : ∀ id cls, respects same_vis (classList_remove id cls)).
  { intros id cls s1 s2 HR. unfold same_vis, vis_part in *.
    injection HR as Hv Hc Hs. unfold classList_remove. rewrite Hc.
    destruct (classes s2 !! id); cbn; by rewrite ?Hv, ?Hc, ?Hs. }
  assert (Hav : respects same_vis (assign_visible v)).
  { intros s1 s2 HR. unfold same_vis, vis_part in *.
    injection HR as Hv Hc Hs. cbn. by rewrite Hc, Hs. }
  assert (Hsk : respects same_vis (setKey "sidebarVisible" v)).
  { intros s1 s2 HR. unfold same_vis, vis_part in *.
    injection HR as Hv Hc Hs. cbn. by rewrite Hv, Hc, Hs. }
  unfold setVisibility. apply respects_bind.
  - intros s1 s2 HR. split; [|done]. unfold same_vis, vis_part in HR.
    injection HR as Hv _ _. cbn. by rewrite Hv.
  - intros cur. destruct (negb (eqb cur v)); [|apply respects_ret].
    destruct v; repeat (apply respects_bind; [|intros ?]); auto.
Qed.

Lemma same_vis_dispatch (ev : event) (s1 s2 : state) :
  is_playback ev = false → same_vis s1 s2 →
  same_vis (dispatch ev s1) (dispatch ev s2).
Proof.
  intros Hpb HR. unfold dispatch, exec.
  destruct ev; try discriminate; cbn [handler];
    by apply same_vis_setVisibility.
Qed.

Lemma same_play_update_clip f e h : respects same_play (update_clip f e h).
Proof.
  intros s1 s2 HR. unfold same_play, play_part in *.
  injection HR as Hv Hl Ho Hc. cbn. by rewrite Hv, Hl, Ho, Hc.
Qed.

Lemma same_play_videos_at i : respects same_play (videos_at i).
Proof.
  intros s1 s2 HR. pose proof HR as HR'. unfold same_play, play_part in HR'.
  injection HR' as Hv _ _ _. unfold videos_at. rewrite Hv.
  by destruct (videos s2 !! i) as [[h|]|].
Qed.

Lemma same_play_last : respects same_play this_lastVisibleVideo.
Proof.
  intros s1 s2 HR. split; [|done]. unfold same_play, play_part in HR.
  injection HR as _ Hl _ _. cbn. by rewrite Hl.
Qed.

Lemma same_play_assign_last k : respects same_play (assign_lastVisibleVideo k).
Proof.
  intros s1 s2 HR. unfold same_play, play_part in *.
  injection HR as Hv Hl Ho Hc. cbn. by rewrite Hv, Ho, Hc.
Qed.

Lemma same_play_assign_videos i el : respects same_play (assign_videos i el).
Proof.
  intros s1 s2 HR. unfold same_play, play_part in *.
  injection HR as Hv Hl Ho Hc. cbn. by rewrite Hv, Hl, Ho, Hc.
Qed.

Lemma same_play_query i : respects same_play (querySelector_video i).
Proof.
  intros s1 s2 HR. split; [|done]. unfold same_play, play_part in HR.
  injection HR as _ _ _ Hc. cbn. by rewrite Hc.
Qed.

Ltac same_play_step :=
  first
    [ apply respects_for_each; intros ?
    | apply respects_bind; [|intros ?]
    | apply respects_ret
    | apply same_play_last
    | apply same_play_videos_at
    | apply same_play_query
    | apply same_play_assign_videos
    | apply same_play_assign_last
    | apply same_play_update_clip ].

Lemma same_play_dispatch (ev : event) (s1 s2 : state) :
  is_playback ev = true → same_play s1 s2 →
  same_play (dispatch ev s1) (dispatch ev s2).
Proof.
  intros Hpb HR. unfold dispatch, exec.
  destruct ev; try discriminate; cbn [handler].
  - unfold on_show. pose proof HR as HR'. unfold same_play, play_part in HR'.
    injection HR' as _ _ Ho _. rewrite Ho. destruct (show_once s2); [|done].
    assert (Hp : respects same_play resolve_videos).
    { unfold resolve_videos, resolve_video, set_src, set_loop.
      repeat same_play_step. }
    apply Hp. unfold same_play, play_part in *.
    injection HR as Hv Hl _ Hc. cbn. by rewrite Hv, Hl, Hc.
  - assert (Hp : respects same_play on_shown).
    { unfold on_shown, set_currentTime, play. repeat same_play_step. }
    by apply Hp.
  - assert (Hp : respects same_play on_hidden).
    { unfold on_hidden, pause. repeat same_play_step. }
    by apply Hp.
  - assert (Hp : respects same_play (on_slide to)).
    { unfold on_slide, set_currentTime, play, pause. repeat same_play_step. }
    by apply Hp.
Qed.

Lemma run_same_vis (evs : list event) (s1 s2 : state) :
  same_vis s1 s2 → same_vis (run evs s1) (run (visibility_events evs) s2).
Proof.
  revert s1 s2. induction evs as [|ev evs IH]; intros s1 s2 HR; [done|].
  change (run (ev :: evs) s1) with (run evs (dispatch ev s1)).
  unfold visibility_events. cbn [List.filter].
  destruct (is_playback ev) eqn:Hpb; cbn [negb].
  - apply IH. unfold same_vis in *. by rewrite playback_keeps_vis.
  - change (run (ev :: ?l) s2) with (run l (dispatch ev s2)).
    apply IH. by apply same_vis_dispatch.
Qed.

Lemma run_same_play (evs : list event) (s1 s2 : state) :
  same_play s1 s2 → same_play (run evs s1) (run (playback_events evs) s2).
Proof.
  revert s1 s2. induction evs as [|ev evs IH]; intros s1 s2 HR; [done|].
  change (run (ev :: evs) s1) with (run evs (dispatch ev s1)).
  unfold playback_events. cbn [List.filter].
  destruct (is_playback ev) eqn:Hpb.
  - change (run (ev :: ?l) s2) with (run l (dispatch ev s2)).
    apply IH. by apply same_play_dispatch.
  - apply IH. unfold same_play in *.
    by rewrite (proj1 (visibility_keeps_playback ev s1 Hpb)).
Qed.

(** X7: the two controllers are independent.  For any interleaving of
    events, the visibility state (field, class lists, store) is the one the
    visibility events alone produce, and the playback state (handles,
    current index, one-shot listener, clips) is the one the playback events
    alone produce; this holds also when listeners throw. *)
Theorem controllers_independent (s : state) (evs : list event) :
  vis_part (run evs s) = vis_part (run (visibility_events evs) s) ∧
  play_part (run evs s) = play_part (run (playback_events evs) s).
Proof.
  split; [by apply run_same_vis|by apply run_same_play].
Qed.

(** ** Further properties of the playback manager *)

Lemma for_each_app (l1 l2 : list nat) (body : nat → M unit) (s : state) :
  for_each (l1 ++ l2) body s = (for_each l1 body;; for_each l2 body) s.
Proof.
  revert s. induction l1 as [|i l1 IH]; intros s; cbn [app for_each].
  - by rewrite bind_unfold.
  - rewrite !bind_unfold. destruct (body i s) as [[[]|e] s1]; [|done].
    rewrite IH. by rewrite bind_unfold.
Qed.

(** One iteration at the end of the array, on an element that is missing:
    [null] is stored and the next statement throws. *)
Lemma resolve_video_missing (i : nat) (s : state) :
  length (videos s) = i → clips s !! i = None →
  resolve_video i s =
    (Throw TypeError,
     emit (AssignVideos i None) (set_videos (videos s ++ [None]) s)).
Proof.
  intros Hlen Hv. subst i. unfold resolve_video. rewrite bind_unfold.
  unfold querySelector_video. rewrite Hv. cbn beta iota.
  rewrite bind_unfold. unfold assign_videos. cbn beta iota.
  rewrite array_set_end. rewrite bind_unfold.
  rewrite videos_at_none; [done|].
  intros h. cbn. rewrite lookup_app_r by lia. by rewrite Nat.sub_diag.
Qed.

Lemma bound_handles_apply_clip f e h s :
  keeps_source f → bound_handles s → bound_handles (apply_clip f e h s).
Proof.
  intros Hf Hb i h' Hi. destruct (Hb i h' Hi) as (-> & v & Hv & Hs & Hl).
  split; [done|]. rewrite clips_apply_clip, lookup_alter.
  case_decide; [subst h|eauto]. rewrite Hv. cbn.
  exists (f v). destruct (Hf v) as [-> ->]. eauto.
Qed.

Lemma bound_apply_clip f e h s :
  keeps_source f → bound s → bound (apply_clip f e h s).
Proof.
  intros Hf (Hlen & Ho & Hb & Hl). split; [done|]. split; [done|].
  split; [by apply bound_handles_apply_clip|done].
Qed.

Lemma keeps_source_paused b : keeps_source (with_paused b).
Proof. by intros []. Qed.

Lemma keeps_source_currentTime t : keeps_source (with_currentTime t).
Proof. by intros []. Qed.

(** The loop of the [show] listener from index [a], on any document. *)
Lemma resolve_loop_bound (n a : nat) (s : state) :
  length (videos s) = a → bound_handles s →
  (length (videos (for_each (seq a n) resolve_video s).2) ≤ a + n)%nat ∧
  bound_handles (for_each (seq a n) resolve_video s).2 ∧
  lastVisibleVideo (for_each (seq a n) resolve_video s).2 = lastVisibleVideo s ∧
  show_once (for_each (seq a n) resolve_video s).2 = show_once s.
Proof.
  revert a s. induction n as [|n IH]; intros a s Hlen Hb.
  - cbn. split; [lia|]. by split.
  - cbn [seq for_each]. rewrite bind_unfold.
    destruct (clips s !! a) as [v|] eqn:Hv.
    + rewrite (resolve_video_ok a s v Hlen Hv). cbn beta iota.
      set (s1 := apply_clip _ _ _ _).
      assert (Hlen1 : length (videos s1) = S a).
      { subst s1. cbn. rewrite length_app. cbn. lia. }
      assert (Hb1 : bound_handles s1).
      { intros i h Hi. subst s1. cbn in Hi.
        destruct (decide (i < a)) as [Hlt|Hge].
        - rewrite lookup_app_l in Hi by lia.
          destruct (Hb i h Hi) as (-> & w & Hw & Hs & Hl). split; [done|].
          exists w. split; [|done]. cbn.
          rewrite !lookup_alter. repeat case_decide; try lia. exact Hw.
        - rewrite lookup_app_r in Hi by lia.
          destruct (i - length (videos s)) as [|k] eqn:Hk; [|by destruct k].
          injection Hi as <-. assert (i = a) as -> by lia. split; [done|].
          exists (with_loop true (with_src (asset a) v)). split; [|done]. cbn.
          rewrite !lookup_alter. repeat case_decide; try done. by rewrite Hv. }
      destruct (IH (S a) s1 Hlen1 Hb1) as (H1 & H2 & H3 & H4).
      split; [lia|]. split; [done|]. split; [by rewrite H3|by rewrite H4].
    + rewrite (resolve_video_missing a s Hlen Hv). cbn [snd].
      split; [|split; [|done]].
      * cbn. rewrite length_app. cbn. lia.
      * intros i h Hi. cbn in Hi.
        destruct (decide (i < a)) as [Hlt|Hge].
        -- rewrite lookup_app_l in Hi by lia. by apply Hb.
        -- rewrite lookup_app_r in Hi by lia.
           destruct (i - length (videos s)) as [|k]; [done|by destruct k].
Qed.

Lemma bound_show (s : state) : bound s → bound (dispatch ShowCollapse s).
Proof.
  intros Hbd. pose proof Hbd as (Hlen & Ho & Hb & Hl).
  unfold dispatch, exec. cbn [handler]. unfold on_show.
  destruct (show_once s) eqn:Hso; [|exact Hbd].
  specialize (Ho eq_refl). unfold resolve_videos.
  destruct (resolve_loop_bound 5 0 (set_show_once false s))
    as (H1 & H2 & H3 & H4).
  { cbn. by rewrite Ho. }
  { intros i h Hi. cbn in Hi. by rewrite Ho in Hi. }
  split; [done|]. split; [by rewrite H4|]. split; [done|].
  left. rewrite H3. cbn. destruct Hl as [Hl|Hl]; [done|]. by rewrite Ho in Hl.
Qed.

Lemma bound_shown (s : state) : bound s → bound (dispatch ShownCollapse s).
Proof.
  intros Hbd. unfold dispatch, exec. cbn [handler].
  destruct (videos_at_cases s (lastVisibleVideo s)) as [[h Hh]|Hn].
  - rewrite (on_shown_resolved s h Hh). cbn [snd].
    apply bound_apply_clip; [apply keeps_source_paused|].
    by apply bound_apply_clip; [apply keeps_source_currentTime|].
  - by rewrite (on_shown_unresolved s Hn).
Qed.

Lemma bound_hidden (s : state) : bound s → bound (dispatch HiddenCollapse s).
Proof.
  intros Hbd. unfold dispatch, exec. cbn [handler].
  destruct (videos_at_cases s (lastVisibleVideo s)) as [[h Hh]|Hn].
  - rewrite (on_hidden_resolved s h Hh). cbn [snd].
    by apply bound_apply_clip; [apply keeps_source_paused|].
  - by rewrite (on_hidden_unresolved s Hn).
Qed.

Lemma bound_slide (s : state) (to : nat) :
  bound s → bound (dispatch (SlideCarousel to) s).
Proof.
  intros Hbd. unfold dispatch, exec. cbn [handler].
  destruct (videos_at_cases s (lastVisibleVideo s)) as [[hi Hhi]|Hn];
    [|by rewrite (on_slide_unresolved s to Hn)].
  destruct (videos_at_cases s to) as [[hk Hhk]|Hn].
  - rewrite (on_slide_resolved s to hi hk Hhi Hhk). cbn [snd].
    assert (Hb3 : bound (apply_clip (with_paused false) (Play hk) hk
                    (apply_clip (with_currentTime 0) (SetCurrentTime hk 0) hk
                       (apply_clip (with_paused true) (Pause hi) hi s)))).
    { apply bound_apply_clip; [apply keeps_source_paused|].
      apply bound_apply_clip; [apply keeps_source_currentTime|].
      by apply bound_apply_clip; [apply keeps_source_paused|]. }
    destruct Hb3 as (Hlen & Ho & Hb & _).
    split; [done|]. split; [done|]. split; [done|]. right. cbn.
    destruct Hbd as (_ & _ & Hb0 & _).
    destruct (Hb0 to hk Hhk) as (-> & _). exact Hhk.
  - rewrite (on_slide_target_unresolved s to hi Hhi Hn). cbn [snd].
    by apply bound_apply_clip; [apply keeps_source_paused|].
Qed.

Lemma bound_play_part (s s' : state) :
  play_part s' = play_part s → bound s → bound s'.
Proof.
  unfold play_part. intros [= Hv Hl Ho Hc].
  unfold bound, bound_handles. by rewrite Hv, Hl, Ho, Hc.
Qed.

Lemma bound_dispatch (ev : event) (s : state) : bound s → bound (dispatch ev s).
Proof.
  destruct (is_playback ev) eqn:Hpb.
  - destruct ev; try discriminate.
    + apply bound_show.
    + apply bound_shown.
    + apply bound_hidden.
    + apply bound_slide.
  - apply bound_play_part. by apply visibility_keeps_playback.
Qed.

Lemma bound_run (evs : list event) (s : state) : bound s → bound (run evs s).
Proof.
  revert s. induction evs as [|ev evs IH]; intros s Hs; [done|].
  cbn. by apply IH, bound_dispatch.
Qed.

Lemma bound_fresh (markup : gmap string (gset string))
    (media : gmap nat video) (store : gmap string bool) (s : state) :
  new_Sidebar markup media store = Ok s → bound s.
Proof.
  intros Hnew. destruct (new_Sidebar_inv _ _ _ _ Hnew) as (-> & _).
  split; [cbn; lia|]. split; [done|]. split; [|by left].
  by intros i h Hi.
Qed.

Lemma bound_last (s : state) : bound s → lastVisibleVideo s < 5.
Proof.
  intros (Hlen & _ & _ & [->|Hl]); [lia|].
  apply lookup_lt_Some in Hl. lia.
Qed.

(** X8: the current clip index stays a slide index.  On every sidebar the
    constructor made, whatever the markup and whatever events arrive (also
    slide changes to an index that is no slide, and listeners that throw):
    [lastVisibleVideo] is below 5, the array holds at most five entries,
    and an entry that is an element is the element of its own slide. *)
Theorem current_index_in_range
    (markup : gmap string (gset string)) (media : gmap nat video)
    (store : gmap string bool) (s0 : state) (evs : list event) :
  new_Sidebar markup media store = Ok s0 →
  lastVisibleVideo (run evs s0) < 5 ∧
  (length (videos (run evs s0)) ≤ 5)%nat ∧
  ∀ i h, videos (run evs s0) !! i = Some (Some h) → h = i.
Proof.
  intros Hnew. pose proof (bound_run evs s0 (bound_fresh _ _ _ _ Hnew)) as Hb.
  split; [by apply bound_last|]. destruct Hb as (Hlen & _ & Hb & _).
  split; [done|]. intros i h Hi. by destruct (Hb i h Hi).
Qed.

Lemma current_index_in_range_witness :
  new_Sidebar example_markup example_media ∅ = Ok example_fresh ∧
  lastVisibleVideo
    (run [SlideCarousel 3; ShowCollapse; ShownCollapse; SlideCarousel 9;
          SlideCarousel 4] example_fresh) < 5.
Proof.
  split; [exact new_example_fresh|].
  exact (proj1 (current_index_in_range example_markup example_media ∅
                  example_fresh
                  [SlideCarousel 3; ShowCollapse; ShownCollapse;
                   SlideCarousel 9; SlideCarousel 4] new_example_fresh)).
Defined.

(** X9: the playing clip is the current one.  On a sidebar built over
    markup in which no clip plays, after any events: a clip that is playing
    is the clip of slide [lastVisibleVideo], its source is the asset of that
    slide and it loops. *)
Theorem playing_clip_is_current
    (markup : gmap string (gset string)) (media : gmap nat video)
    (store : gmap string bool) (s0 : state) (evs : list event)
    (i : nat) (v : video) :
  new_Sidebar markup media store = Ok s0 → quiet media →
  clips (run evs s0) !! i = Some v → playing v →
  i = lastVisibleVideo (run evs s0) ∧ src v = Some (asset i) ∧ loop v = true.
Proof.
  intros Hnew Hq Hi Hp.
  destruct (playback_inv_run evs s0 (playback_inv_fresh _ _ _ _ Hnew Hq))
    as (Hoc & _ & _).
  destruct (bound_run evs s0 (bound_fresh _ _ _ _ Hnew)) as (_ & _ & Hb & _).
  specialize (Hoc i v Hi Hp).
  destruct (Hb _ _ Hoc) as (-> & w & Hw & Hs & Hl).
  rewrite Hw in Hi. injection Hi as ->. done.
Qed.

Lemma playing_clip_is_current_witness :
  new_Sidebar example_markup example_media ∅ = Ok example_fresh ∧
  quiet example_media ∧
  clips (run [ShowCollapse; ShownCollapse; SlideCarousel 3] example_fresh) !! 3 =
    Some (Video (Some (asset 3)) true 0 false) ∧
  3 = lastVisibleVideo
        (run [ShowCollapse; ShownCollapse; SlideCarousel 3] example_fresh).
Proof.
  assert (Hc : clips (run [ShowCollapse; ShownCollapse; SlideCarousel 3]
                        example_fresh) !! 3 =
               Some (Video (Some (asset 3)) true 0 false))
    by (vm_compute; reflexivity).
  split; [exact new_example_fresh|]. split; [exact quiet_example_media|].
  split; [exact Hc|].
  exact (proj1 (playing_clip_is_current example_markup example_media ∅
                  example_fresh [ShowCollapse; ShownCollapse; SlideCarousel 3]
                  3 _ new_example_fresh quiet_example_media Hc eq_refl)).
Defined.

(** X10: hiding the tab stops playback.  On a sidebar built over markup in
    which no clip plays, after any events followed by [hidden.bs.collapse]
    no clip is playing. *)
Theorem hidden_stops_playback
    (markup : gmap string (gset string)) (media : gmap nat video)
    (store : gmap string bool) (s0 : state) (evs : list event) :
  new_Sidebar markup media store = Ok s0 → quiet media →
  quiet (clips (run (evs ++ [HiddenCollapse]) s0)).
Proof.
  intros Hnew Hq. rewrite run_app. cbn [run foldl].
  destruct (playback_inv_run evs s0 (playback_inv_fresh _ _ _ _ Hnew Hq))
    as (Hoc & _ & _).
  set (s := run evs s0) in *. unfold dispatch, exec. cbn [handler].
  destruct (videos_at_cases s (lastVisibleVideo s)) as [[h Hh]|Hn].
  - rewrite (on_hidden_resolved s h Hh). cbn [snd]. rewrite clips_apply_clip.
    by apply only_pause, only_current_at.
  - rewrite (on_hidden_unresolved s Hn). by apply only_current_quiet.
Qed.

Lemma hidden_stops_playback_witness :
  new_Sidebar example_markup example_media ∅ = Ok example_fresh ∧
  quiet example_media ∧
  quiet (clips (run ([ShowCollapse; ShownCollapse; SlideCarousel 2]
                     ++ [HiddenCollapse]) example_fresh)).
Proof.
  split; [exact new_example_fresh|]. split; [exact quiet_example_media|].
  exact (hidden_stops_playback example_markup example_media ∅ example_fresh
           [ShowCollapse; ShownCollapse; SlideCarousel 2]
           new_example_fresh quiet_example_media).
Defined.

Lemma slide_resolved_clip (s : state) (k : nat) (v : video) :
  resolved s → lastVisibleVideo s < 5 → k < 5 → clips s !! k = Some v →
  clips (dispatch (SlideCarousel k) s) !! k =
    Some (Video (src v) (loop v) 0 false).
Proof.
  intros Hr Hi Hk Hv. unfold dispatch, exec. cbn [handler].
  rewrite (on_slide_resolved s k _ _ (resolved_at s _ Hr Hi)
             (resolved_at s k Hr Hk)).
  cbn [snd emit set_trace set_lastVisibleVideo clips].
  rewrite !clips_apply_clip, !lookup_alter.
  repeat case_decide; subst; try done; by rewrite Hv.
Qed.

(** X11: showing the tab or changing the slide leaves exactly the current
    clip playing.  On a sidebar built over markup that has the five video
    elements, none of them playing, once the tab has been revealed: after
    any events followed by [shown.bs.collapse] or by a slide change to a
    slide, the clip of [lastVisibleVideo] plays from its start and no other
    clip plays. *)
Theorem reveal_plays_current
    (markup : gmap string (gset string)) (media : gmap nat video)
    (store : gmap string bool) (s0 : state) (evs : list event) (ev : event) :
  new_Sidebar markup media store = Ok s0 → quiet media →
  (∀ i, i < 5 → is_Some (media !! i)) →
  ShowCollapse ∈ evs →
  ev = ShownCollapse ∨ (∃ k, k < 5 ∧ ev = SlideCarousel k) →
  (∃ v, clips (run (evs ++ [ev]) s0) !! lastVisibleVideo (run (evs ++ [ev]) s0)
          = Some v ∧ playing v ∧ currentTime v = 0) ∧
  only (lastVisibleVideo (run (evs ++ [ev]) s0)) (clips (run (evs ++ [ev]) s0)).
Proof.
  intros Hnew Hq Hm Hin Hev.
  pose proof (playback_inv_run (evs ++ [ev]) s0
                (playback_inv_fresh _ _ _ _ Hnew Hq)) as (Hoc & _ & _).
  pose proof (bound_run (evs ++ [ev]) s0 (bound_fresh _ _ _ _ Hnew))
    as (_ & _ & Hbh & _).
  assert (Hu : unresolved media s0).
  { destruct (new_Sidebar_inv _ _ _ _ Hnew) as (-> & _). by repeat split. }
  pose proof (resolution_phase media evs s0 Hm Hu) as Hph.
  rewrite bool_decide_eq_true_2 in Hph by done. destruct Hph as (Hr & _).
  pose proof (bound_last _ (bound_run evs s0 (bound_fresh _ _ _ _ Hnew))) as Hl.
  split.
  - rewrite run_app. cbn [run foldl]. set (s := run evs s0) in *.
    destruct Hev as [->|(k & Hk & ->)].
    + rewrite nonslide_keeps_last by done.
      destruct Hr as (Hso & Hvid & Hpres). destruct (Hpres _ Hl) as [v Hv].
      destruct (shown_resolved_effect s (lastVisibleVideo s) v) as (_ & _ & ->);
        [by apply resolved_at|done|].
      rewrite lookup_insert_eq. by eexists.
    + rewrite (slide_sets_last s k Hr Hl Hk).
      pose proof Hr as (_ & _ & Hpres). destruct (Hpres k Hk) as [v Hv].
      rewrite (slide_resolved_clip s k v Hr Hl Hk Hv). by eexists.
  - intros j w Hj Hp. specialize (Hoc j w Hj Hp).
    by destruct (Hbh _ _ Hoc) as (-> & _).
Qed.

Lemma reveal_plays_current_witness :
  new_Sidebar example_markup example_media ∅ = Ok example_fresh ∧
  quiet example_media ∧ (∀ i, i < 5 → is_Some (example_media !! i)) ∧
  ShowCollapse ∈ [ShowCollapse; ShownCollapse; HiddenCollapse] ∧
  only (lastVisibleVideo
          (run ([ShowCollapse; ShownCollapse; HiddenCollapse]
                ++ [SlideCarousel 4]) example_fresh))
       (clips (run ([ShowCollapse; ShownCollapse; HiddenCollapse]
                    ++ [SlideCarousel 4]) example_fresh)).
Proof.
  assert (Hin : ShowCollapse ∈ [ShowCollapse; ShownCollapse; HiddenCollapse])
    by apply list_elem_of_here.
  assert (Hev : SlideCarousel 4 = ShownCollapse ∨
                 (∃ k, k < 5 ∧ SlideCarousel 4 = SlideCarousel k))
    by (right; exists 4; split; [lia|reflexivity]).
  split; [exact new_example_fresh|]. split; [exact quiet_example_media|].
  split; [exact example_media_present|]. split; [exact Hin|].
  exact (proj2 (reveal_plays_current example_markup example_media ∅
                  example_fresh [ShowCollapse; ShownCollapse; HiddenCollapse]
                  (SlideCarousel 4) new_example_fresh quiet_example_media
                  example_media_present Hin Hev)).
Defined.

Lemma settled_refl (s : state) : show_once s = false → settled s s.
Proof. by intros Ho. Qed.

Section Settled.
Context (s0 : state).

Lemma settled_update_clip f e h :
  keeps_source f → preserves (settled s0) (update_clip f e h).
Proof.
  intros Hf s (Ho & Hv & Hc). split; [done|]. split; [done|].
  intros i. destruct (Hc i) as [<- <-]. cbn. rewrite lookup_alter.
  case_decide; [subst h|done].
  destruct (clips s !! i) as [v|]; [|done]. cbn.
  by destruct (Hf v) as [-> ->].
Qed.

Lemma settled_assign_last k : preserves (settled s0) (assign_lastVisibleVideo k).
Proof. by intros s. Qed.

Lemma settled_handler ev : preserves (settled s0) (handler ev).
Proof.
  destruct (is_playback ev) eqn:Hpb.
  - destruct ev; try discriminate; cbn [handler].
    + intros s Hs. unfold on_show. destruct Hs as (Ho & Hs). rewrite Ho.
      by split.
    + unfold on_shown, set_currentTime, play.
      repeat first
        [ apply preserves_bind; [|intros ?]
        | apply preserves_this_lastVisibleVideo
        | apply preserves_videos_at
        | apply settled_update_clip; by intros [] ].
    + unfold on_hidden, pause.
      repeat first
        [ apply preserves_bind; [|intros ?]
        | apply preserves_this_lastVisibleVideo
        | apply preserves_videos_at
        | apply settled_update_clip; by intros [] ].
    + unfold on_slide, set_currentTime, play, pause.
      repeat first
        [ apply preserves_bind; [|intros ?]
        | apply preserves_this_lastVisibleVideo
        | apply preserves_videos_at
        | apply settled_assign_last
        | apply settled_update_clip; by intros [] ].
  - intros s (Ho & Hv & Hc).
    destruct (visibility_keeps_playback ev s Hpb) as (Hpp & _).
    unfold play_part, dispatch, exec in Hpp. injection Hpp as Hv' _ Ho' Hc'.
    unfold settled. by rewrite Ho', Hv', Hc'.
Qed.
End Settled.

Lemma settled_run (s0 : state) (evs : list event) (s : state) :
  settled s0 s → settled s0 (run evs s).
Proof.
  revert s. induction evs as [|ev evs IH]; intros s Hs; [done|].
  cbn. apply IH. by apply (settled_handler s0 ev s).
Qed.

(** X12: the clip set is fixed after the first reveal.  Once the one-shot
    listener is gone, whatever it did, no event changes the array of
    handles or the source or loop flag of any clip, and the listener does
    not come back. *)
Theorem handles_fixed_after_reveal (s : state) (evs : list event) :
  show_once s = false →
  show_once (run evs s) = false ∧
  videos (run evs s) = videos s ∧
  ∀ i, src <$> clips (run evs s) !! i = src <$> clips s !! i ∧
       loop <$> clips (run evs s) !! i = loop <$> clips s !! i.
Proof. intros Ho. by apply (settled_run s evs s), settled_refl. Qed.

Lemma handles_fixed_after_reveal_witness :
  show_once example_resolved = false ∧
  videos (run [ShownCollapse; SlideCarousel 2; ShowCollapse; ClickHide;
               HiddenCollapse] example_resolved) = videos example_resolved.
Proof.
  assert (Ho : show_once example_resolved = false) by (vm_compute; reflexivity).
  split; [exact Ho|].
  exact (proj1 (proj2 (handles_fixed_after_reveal example_resolved
                         [ShownCollapse; SlideCarousel 2; ShowCollapse;
                          ClickHide; HiddenCollapse] Ho))).
Defined.

(** The [show] listener on a fresh sidebar whose first missing video
    element is the one of slide [j]. *)
Lemma show_with_first_missing (media : gmap nat video) (s : state) (j : nat) :
  unresolved media s → j < 5 →
  (∀ i, i < j → is_Some (media !! i)) → media !! j = None →
  ∃ s', handler ShowCollapse s = (Throw TypeError, s') ∧
    show_once s' = false ∧
    videos s' = (Some <$> seq 0 j) ++ [None] ∧
    resolutions (effects s') = seq 0 j ∧
    (∀ i, (j ≤ i)%nat → clips s' !! i = media !! i) ∧
    lastVisibleVideo s' = lastVisibleVideo s.
Proof.
  intros (Ho & Hv & Hc & Hr) Hj Hm Hnone. cbn [handler]. unfold on_show.
  rewrite Ho. unfold resolve_videos.
  replace 5 with (j + (5 - j)) by lia. rewrite seq_app, for_each_app.
  rewrite bind_unfold.
  destruct (resolve_loop j 0 (set_show_once false s))
    as (s1 & Hrun & Hvid & Hcl & Hl & Hso & He).
  { cbn. by rewrite Hv. }
  { intros i Hi. cbn. rewrite Hc. apply Hm. lia. }
  rewrite Hrun. cbn beta iota.
  destruct (5 - j) as [|n] eqn:Hn; [lia|]. cbn [seq for_each Nat.add].
  rewrite bind_unfold.
  assert (Hlen : length (videos s1) = j).
  { rewrite Hvid. cbn. rewrite Hv. cbn. by rewrite length_fmap, length_seq. }
  assert (Hcj : ∀ i, (j ≤ i)%nat → clips s1 !! i = media !! i).
  { intros i Hi. rewrite Hcl. case_bool_decide; [lia|]. cbn. by rewrite Hc. }
  rewrite (resolve_video_missing j s1 Hlen); [|by rewrite Hcj, Hnone].
  eexists. split; [reflexivity|]. cbn.
  split; [by rewrite Hso|]. split; [by rewrite Hvid; cbn; rewrite Hv|].
  split; [|split; [exact Hcj|by rewrite Hl]].
  unfold effects in *. cbn. rewrite fmap_app, resolutions_app. cbn.
  rewrite He, resolutions_app. cbn [set_show_once trace].
  rewrite Hr, app_nil_r. cbn [app].
  clear. generalize 0. induction j as [|j IH]; intros a; [done|].
  cbn. by rewrite IH.
Qed.

(** X13: a missing video element ends the resolution for good.  On a fresh
    sidebar whose first missing video element is that of slide [j], the
    [show] listener resolves the clips before [j], stores [null] at [j] and
    throws; the later clips are not touched.  The listener is gone, so no
    later event resolves them: the array stays as it is, and every slide
    change to [j] or beyond throws. *)
Theorem missing_element_ends_resolution
    (markup : gmap string (gset string)) (media : gmap nat video)
    (store : gmap string bool) (s0 : state) (j : nat) (evs : list event) :
  new_Sidebar markup media store = Ok s0 → j < 5 →
  (∀ i, i < j → is_Some (media !! i)) → media !! j = None →
  outcome (handler ShowCollapse) s0 = Throw TypeError ∧
  resolutions (effects (dispatch ShowCollapse s0)) = seq 0 j ∧
  (∀ i, (j ≤ i)%nat → clips (dispatch ShowCollapse s0) !! i = media !! i) ∧
  videos (run (ShowCollapse :: evs) s0) = (Some <$> seq 0 j) ++ [None] ∧
  ∀ k, (j ≤ k)%nat →
    outcome (handler (SlideCarousel k)) (run (ShowCollapse :: evs) s0)
      = Throw TypeError.
Proof.
  intros Hnew Hj Hm Hnone.
  assert (Hu : unresolved media s0).
  { destruct (new_Sidebar_inv _ _ _ _ Hnew) as (-> & _). by repeat split. }
  destruct (show_with_first_missing media s0 j Hu Hj Hm Hnone)
    as (s1 & Hrun & Hso & Hvid & Hres & Hcl & _).
  change (run (ShowCollapse :: evs) s0) with (run evs (dispatch ShowCollapse s0)).
  unfold outcome, dispatch at 1 2 3 4, exec. rewrite Hrun. cbn [fst snd].
  destruct (settled_run s1 evs s1 (settled_refl s1 Hso)) as (_ & Hv & _).
  rewrite Hv, Hvid. repeat split; try done.
  intros k Hk. set (s := run evs s1) in *.
  assert (Hto : ∀ h, videos s !! k ≠ Some (Some h)).
  { intros h. rewrite Hv, Hvid.
    destruct (decide (k = j)) as [->|Hne].
    - rewrite lookup_app_r by (rewrite length_fmap, length_seq; lia).
      by rewrite length_fmap, length_seq, Nat.sub_diag.
    - rewrite lookup_ge_None_2; [done|].
      rewrite length_app, length_fmap, length_seq. cbn. lia. }
  cbn [handler].
  destruct (videos_at_cases s (lastVisibleVideo s)) as [[hi Hhi]|Hn].
  - by rewrite (on_slide_target_unresolved s k hi Hhi Hto).
  - by rewrite (on_slide_unresolved s k Hn).
Qed.

Lemma missing_element_ends_resolution_witness :
  new_Sidebar example_markup (delete 2 example_media) ∅ =
    Ok (State true [] 0 true example_markup (delete 2 example_media) ∅ []) ∧
  2 < 5 ∧ (∀ i, i < 2 → is_Some (delete 2 example_media !! i)) ∧
  delete 2 example_media !! 2 = None ∧
  videos (run (ShowCollapse :: [ShownCollapse; ShowCollapse; SlideCarousel 1])
            (State true [] 0 true example_markup (delete 2 example_media) ∅ []))
    = [Some 0; Some 1; None].
Proof.
  assert (Hnew : new_Sidebar example_markup (delete 2 example_media) ∅ =
            Ok (State true [] 0 true example_markup (delete 2 example_media) ∅ []))
    by (vm_compute; reflexivity).
  assert (Hj : 2 < 5) by lia.
  assert (Hm : ∀ i, i < 2 → is_Some (delete 2 example_media !! i)).
  { intros i Hi. do 2 (destruct i as [|i]; [vm_compute; eauto|]). lia. }
  assert (Hnone : delete 2 example_media !! 2 = None) by apply lookup_delete_eq.
  split; [exact Hnew|]. split; [exact Hj|]. split; [exact Hm|].
  split; [exact Hnone|].
  destruct (missing_element_ends_resolution _ _ _ _ 2
              [ShownCollapse; ShowCollapse; SlideCarousel 1] Hnew Hj Hm Hnone)
    as (_ & _ & _ & Hv & _).
  exact Hv.
Defined.

(** ** Every playback starts at the start *)

Lemma starts_ok_no_play (l : list effect) :
  Forall (λ e, ∀ h, e ≠ Play h) l → ∀ q, starts_ok q l = true.
Proof.
  induction 1 as [|e l He _ IH]; intros q; [done|]. cbn [starts_ok].
  rewrite IH, andb_true_r. destruct e; try done. by destruct (He h).
Qed.

Lemma starts_ok_app (l1 l2 : list effect) :
  (∀ q, starts_ok q l1 = true) → (∀ q, starts_ok q l2 = true) →
  ∀ q, starts_ok q (l1 ++ l2) = true.
Proof.
  intros H1 H2. induction l1 as [|e l1 IH]; intros q; [apply H2|].
  cbn [app starts_ok]. specialize (H1 q). cbn [starts_ok] in H1.
  apply andb_true_iff in H1 as [He Hl]. rewrite He. cbn [andb].
  clear IH He. revert e Hl. induction l1 as [|e' l1 IH]; intros e Hl.
  - apply H2.
  - cbn [app starts_ok] in *. apply andb_true_iff in Hl as [He' Hl'].
    rewrite He'. cbn [andb]. by apply IH.
Qed.

Lemma starts_ok_spec (l pre post : list effect) (h : nat) (q : option effect) :
  starts_ok q l = true → l = pre ++ Play h :: post →
  (pre = [] ∧ q = Some (SetCurrentTime h 0)) ∨
  (∃ pre', pre = pre' ++ [SetCurrentTime h 0]).
Proof.
  revert l q. induction pre as [|e pre IH]; intros l q Hok ->.
  - left. split; [done|]. cbn in Hok. apply andb_true_iff in Hok as [Hq _].
    destruct q as [[]|]; try done.
    apply andb_true_iff in Hq as [H1 H2].
    apply Nat.eqb_eq in H1, H2. by subst.
  - right. cbn [app starts_ok] in Hok. apply andb_true_iff in Hok as [_ Hok].
    destruct (IH _ _ Hok eq_refl) as [(-> & [= ->])|(pre' & ->)].
    + by exists [].
    + by exists (e :: pre').
Qed.

(** The statements of one event satisfy [starts_ok], whatever came before. *)
Lemma dispatch_starts_ok (ev : event) (s : state) :
  ∀ q, starts_ok q (new_effects s (dispatch ev s)) = true.
Proof.
  assert (Hemits : ∀ Q, (∀ e, Q e → ∀ h, e ≠ Play h) →
            emits Q s (dispatch ev s) →
            ∀ q, starts_ok q (new_effects s (dispatch ev s)) = true).
  { intros Q HQ (l & Hl & Hf). rewrite (new_effects_app _ _ _ Hl).
    apply starts_ok_no_play. eapply Forall_impl; [exact Hf|exact HQ]. }
  destruct ev;
    try (apply (Hemits about_view); [by intros [] ?|];
         unfold dispatch, exec; cbn [handler];
         apply setVisibility_emits, emits_refl).
  - apply (Hemits (λ e, ∀ h, e ≠ Play h)); [done|].
    unfold dispatch, exec. cbn [handler]. unfold on_show.
    destruct (show_once s); [|apply emits_refl].
    assert (Hp : preserves (emits (λ e, ∀ h, e ≠ Play h) s) resolve_videos).
    { unfold resolve_videos, resolve_video, set_src, set_loop.
      repeat emits_step. }
    apply Hp. exists []. split; [by rewrite app_nil_r|done].
  - unfold dispatch, exec. cbn [handler].
    destruct (videos_at_cases s (lastVisibleVideo s)) as [[h Hh]|Hn].
    + rewrite (on_shown_resolved s h Hh). cbn [snd].
      rewrite (new_effects_app _ _ [SetCurrentTime h 0; Play h])
        by (by rewrite !effects_apply_clip, <- app_assoc).
      intros q. cbn. by rewrite Nat.eqb_refl.
    + rewrite (on_shown_unresolved s Hn). cbn [snd].
      by rewrite new_effects_refl.
  - unfold dispatch, exec. cbn [handler].
    destruct (videos_at_cases s (lastVisibleVideo s)) as [[h Hh]|Hn].
    + rewrite (on_hidden_resolved s h Hh). cbn [snd].
      by rewrite (new_effects_app _ _ [Pause h]) by apply effects_apply_clip.
    + rewrite (on_hidden_unresolved s Hn). cbn [snd].
      by rewrite new_effects_refl.
  - unfold dispatch, exec. cbn [handler].
    destruct (videos_at_cases s (lastVisibleVideo s)) as [[hi Hhi]|Hn];
      [|rewrite (on_slide_unresolved s to Hn); cbn [snd];
        by rewrite new_effects_refl].
    destruct (videos_at_cases s to) as [[hk Hhk]|Hn].
    + rewrite (on_slide_resolved s to hi hk Hhi Hhk). cbn [snd].
      rewrite (new_effects_app _ _
                 [Pause hi; SetCurrentTime hk 0; Play hk;
                  AssignLastVisibleVideo to]).
      * intros q. cbn. by rewrite Nat.eqb_refl.
      * unfold effects. cbn [emit set_trace trace]. rewrite fmap_app.
        cbn [set_lastVisibleVideo trace].
        fold (effects (apply_clip (with_paused false) (Play hk) hk
               (apply_clip (with_currentTime 0) (SetCurrentTime hk 0) hk
                  (apply_clip (with_paused true) (Pause hi) hi s)))).
        rewrite !effects_apply_clip. by rewrite <- !app_assoc.
    + rewrite (on_slide_target_unresolved s to hi Hhi Hn). cbn [snd].
      by rewrite (new_effects_app _ _ [Pause hi]) by apply effects_apply_clip.
Qed.

Lemma run_starts_ok (evs : list event) (s : state) :
  ∀ q, starts_ok q (new_effects s (run evs s)) = true.
Proof.
  revert s. induction evs as [|ev evs IH]; intros s.
  - cbn [run foldl]. by rewrite new_effects_refl.
  - change (run (ev :: evs) s) with (run evs (dispatch ev s)).
    rewrite (new_effects_trans s (dispatch ev s) _
               (dispatch_extends ev s) (run_extends evs _)).
    apply starts_ok_app; [apply dispatch_starts_ok|apply IH].
Qed.

(** X14: a clip never resumes from where it was paused.  In the statements
    any run of events executes, every [play()] comes immediately after the
    assignment [currentTime = 0] on the same element. *)
Theorem playback_always_from_start (s : state) (evs : list event) :
  starts_ok None (new_effects s (run evs s)) = true ∧
  ∀ pre h post,
    new_effects s (run evs s) = pre ++ Play h :: post →
    ∃ pre', pre = pre' ++ [SetCurrentTime h 0].
Proof.
  split; [apply run_starts_ok|]. intros pre h post Heq.
  destruct (starts_ok_spec _ pre post h None (run_starts_ok evs s None) Heq)
    as [(_ & [=])|Hpre]; exact Hpre.
Qed.


(** ** When listeners throw *)

Lemma unresolved_run (media : gmap nat video) (evs : list event) (s : state) :
  ShowCollapse ∉ evs → unresolved media s → unresolved media (run evs s).
Proof.
  revert s. induction evs as [|ev evs IH]; intros s Hnot Hu; [done|].
  apply not_elem_of_cons in Hnot as [Hne Hnot].
  cbn. apply IH; [done|]. by apply unresolved_step.
Qed.

Lemma playback_ok_resolved (ev : event) (s : state) :
  resolved s → lastVisibleVideo s < 5 → slide_in_range ev →
  is_playback ev = true → outcome (handler ev) s = Ok tt.
Proof.
  intros Hr Hl Hev Hpb. unfold outcome.
  destruct ev; try discriminate; cbn [handler].
  - unfold on_show. destruct Hr as (-> & _). done.
  - by rewrite (on_shown_resolved s _ (resolved_at s _ Hr Hl)).
  - by rewrite (on_hidden_resolved s _ (resolved_at s _ Hr Hl)).
  - by rewrite (on_slide_resolved s to _ _ (resolved_at s _ Hr Hl)
                  (resolved_at s to Hr Hev)).
Qed.

(** X16: no listener throws in regular operation.  On a sidebar built over
    markup that has the panel area and the five video elements, an event
    is handled without exception after any events, provided the slide
    indices are slides and a [shown], [hidden] or slide event comes only
    after the tab has been revealed ([show.bs.collapse]). *)
Theorem regular_operation_never_throws
    (markup : gmap string (gset string)) (media : gmap nat video)
    (store : gmap string bool) (s0 : state) (evs : list event) (ev : event) :
  new_Sidebar markup media store = Ok s0 →
  is_Some (markup !! area) →
  (∀ i, i < 5 → is_Some (media !! i)) →
  slide_in_range ev →
  (is_playback ev = true → ev ≠ ShowCollapse → ShowCollapse ∈ evs) →
  outcome (handler ev) (run evs s0) = Ok tt.
Proof.
  intros Hnew Ha Hm Hev Hafter.
  destruct (new_Sidebar_inv _ _ _ _ Hnew) as (Heq & Hs & Hh).
  assert (Hu : unresolved media s0) by (subst s0; by repeat split).
  pose proof (bound_last _ (bound_run evs s0 (bound_fresh _ _ _ _ Hnew))) as Hl.
  destruct (is_playback ev) eqn:Hpb.
  - pose proof (resolution_phase media evs s0 Hm Hu) as Hph.
    destruct (decide (ShowCollapse ∈ evs)) as [Hin|Hnot].
    + rewrite bool_decide_eq_true_2 in Hph by done. destruct Hph as (Hr & _).
      by apply playback_ok_resolved.
    + rewrite bool_decide_eq_false_2 in Hph by done.
      destruct (decide (ev = ShowCollapse)) as [->|Hne];
        [|by destruct Hnot; apply Hafter].
      destruct Hph as (Ho & Hv & Hc & _). unfold outcome. cbn [handler].
      unfold on_show. rewrite Ho. unfold resolve_videos.
      destruct (resolve_loop 5 0 (set_show_once false (run evs s0)))
        as (s' & -> & _); [by cbn; rewrite Hv| |done].
      intros i Hi. cbn. rewrite Hc. apply Hm. lia.
  - assert (Hp : present (run evs s0)).
    { destruct (same_document_run evs s0 s0 (same_document_refl s0)) as (Hd & _).
      unfold present. rewrite !(dom_is_Some _ _ _ Hd). by subst s0. }
    destruct ev; try discriminate; cbn [handler]; by apply setVisibility_frame.
Qed.

Lemma regular_operation_never_throws_witness :
  new_Sidebar example_markup example_media ∅ = Ok example_fresh ∧
  is_Some (example_markup !! area) ∧
  (∀ i, i < 5 → is_Some (example_media !! i)) ∧
  slide_in_range (SlideCarousel 4) ∧
  outcome (handler (SlideCarousel 4))
    (run [ClickHide; ShowCollapse; ShownCollapse; SlideCarousel 1]
       example_fresh) = Ok tt.
Proof.
  assert (Ha : is_Some (example_markup !! area))
    by (refine (bool_decide_unpack _ _); vm_compute; exact I).
  assert (Hev : slide_in_range (SlideCarousel 4)) by (cbn; lia).
  split; [exact new_example_fresh|]. split; [exact Ha|].
  split; [exact example_media_present|]. split; [exact Hev|].
  apply (regular_operation_never_throws example_markup example_media ∅
           example_fresh [ClickHide; ShowCollapse; ShownCollapse; SlideCarousel 1]
           (SlideCarousel 4) new_example_fresh Ha example_media_present Hev).
  intros _ _. apply list_elem_of_further, list_elem_of_here.
Defined.

(** X17: before the first reveal the playback listeners only throw.  On a
    sidebar the constructor made, as long as no [show.bs.collapse] has been
    dispatched, every [shown], [hidden] and slide event throws a
    [TypeError] on the empty array and leaves the whole state, trace
    included, as it was. *)
Theorem playback_before_reveal_throws
    (markup : gmap string (gset string)) (media : gmap nat video)
    (store : gmap string bool) (s0 : state) (evs : list event) (ev : event) :
  new_Sidebar markup media store = Ok s0 →
  ShowCollapse ∉ evs →
  is_playback ev = true → ev ≠ ShowCollapse →
  handler ev (run evs s0) = (Throw TypeError, run evs s0).
Proof.
  intros Hnew Hnot Hpb Hne.
  destruct (new_Sidebar_inv _ _ _ _ Hnew) as (Heq & _).
  assert (Hu : unresolved media s0) by (subst s0; by repeat split).
  destruct (unresolved_run media evs s0 Hnot Hu) as (_ & Hv & _).
  assert (Hn : ∀ h, videos (run evs s0) !! lastVisibleVideo (run evs s0)
                    ≠ Some (Some h)) by (intros h; by rewrite Hv).
  destruct ev; try discriminate; try done; cbn [handler].
  - by apply on_shown_unresolved.
  - by apply on_hidden_unresolved.
  - by apply on_slide_unresolved.
Qed.

Lemma playback_before_reveal_throws_witness :
  new_Sidebar example_markup example_media ∅ = Ok example_fresh ∧
  (ShowCollapse ∉ [ClickHide; SlideCarousel 2; HiddenCollapse]) ∧
  handler ShownCollapse
    (run [ClickHide; SlideCarousel 2; HiddenCollapse] example_fresh) =
  (Throw TypeError, run [ClickHide; SlideCarousel 2; HiddenCollapse] example_fresh).
Proof.
  assert (Hnot : ShowCollapse ∉ [ClickHide; SlideCarousel 2; HiddenCollapse]).
  { intros Hin. repeat (apply elem_of_cons in Hin as [Hin|Hin]; [discriminate|]).
    by apply elem_of_nil in Hin. }
  split; [exact new_example_fresh|]. split; [exact Hnot|].
  apply (playback_before_reveal_throws example_markup example_media ∅
           example_fresh [ClickHide; SlideCarousel 2; HiddenCollapse]
           ShownCollapse new_example_fresh Hnot); [reflexivity|discriminate].
Defined.
